(** * NBA Telegram AutoBot: the dedup store, the feed pipeline and the
      schedule renderer of [main.py], embedded and verified.

    Python values are modelled as follows.
    - A [str] is the list of its Unicode code points ([pystr]); [len],
      slicing and [rsplit] then count characters exactly as Python does.
      [bytes] is a list of byte values.
    - A dictionary the code reads with [.get] is a record whose fields are
      [option]s, [None] for an absent key; values have the types
      [feedparser] and the scoreboard give them.
    - The outside world (feed parser, translator, HTTP, the placeholder
      file, the Telegram transport, the clock, PIL's encoder) is a record
      of oracles [World].  Oracles whose answer may change from one call
      to the next take the number of external calls made so far.
    - State is threaded explicitly: the [posts] table and the trace of
      external calls, most recent first.  A computation returns a value
      or raises. Logging is not part of the state. *)

From Stdlib Require Import List ZArith NArith Bool Lia.
From Stdlib Require String Ascii.
Import String.StringSyntax.
Import ListNotations.
Open Scope Z_scope.

(** ** Python strings *)

Module Py.

Definition pystr := list N.
Definition bytes := list N.

(** An ASCII literal as a Python string. *)
Definition lit (s : String.string) : pystr :=
  map Ascii.N_of_ascii (String.list_ascii_of_string s).
Arguments lit s%_string_scope.

Definition str_eqb (a b : pystr) : bool :=
  if list_eq_dec N.eq_dec a b then true else false.

(** Truth value of a [str] or [bytes]: non-empty. *)
Definition truthy (s : list N) : bool :=
  match s with [] => false | _ :: _ => true end.

(** Truth value of [d.get(k)]: present and non-empty. *)
Definition truthy_opt (o : option pystr) : bool :=
  match o with Some s => truthy s | None => false end.

(** [a or b] on optional strings. *)
Definition py_or (a b : option pystr) : option pystr :=
  if truthy_opt a then a else b.

(** [d.get(k, default)]. *)
Definition get_default (o : option pystr) (d : pystr) : pystr :=
  match o with Some s => s | None => d end.

(** [len(s)]. *)
Definition len (s : pystr) : Z := Z.of_nat (length s).

(** [s[:k]]; a negative [k] counts from the end. *)
Definition slice_to (k : Z) (s : pystr) : pystr :=
  if 0 <=? k then firstn (Z.to_nat k) s
  else firstn (length s - Z.to_nat (- k)) s.

(** [str.isspace] of one character, which is also what [\s] matches in a
    [str] pattern. *)
Definition is_space (c : N) : bool :=
  ((9 <=? c) && (c <=? 13) || (28 <=? c) && (c <=? 32)
   || (c =? 133) || (c =? 160) || (c =? 5760)
   || (8192 <=? c) && (c <=? 8202)
   || (c =? 8232) || (c =? 8233) || (c =? 8239) || (c =? 8287)
   || (c =? 12288))%N.

Definition SPACE : N := 32.
Definition LT : N := 60.
Definition GT : N := 62.

(** [re.sub(r"<[^>]+>", " ", s)].  [pending] is [None] outside a tag and
    [Some buf] after a '<', [buf] holding the characters read since, most
    recent first.  A '<' matches when at least one character other than
    '>' follows it before the next '>'; a '<' that is never closed stays,
    with all that follows it. *)
Fixpoint sub_tags (pending : option pystr) (s : pystr) : pystr :=
  match s with
  | [] =>
      match pending with
      | None => []
      | Some buf => LT :: rev buf
      end
  | c :: r =>
      match pending with
      | None => if (c =? LT)%N then sub_tags (Some []) r
                else c :: sub_tags None r
      | Some [] =>
          if (c =? GT)%N then LT :: GT :: sub_tags None r
          else sub_tags (Some [c]) r
      | Some buf =>
          if (c =? GT)%N then SPACE :: sub_tags None r
          else sub_tags (Some (c :: buf)) r
      end
  end.

(** [re.sub(r"\s+", " ", s)]: [in_run] says the previous character was
    white space, already replaced. *)
Fixpoint sub_spaces (in_run : bool) (s : pystr) : pystr :=
  match s with
  | [] => []
  | c :: r =>
      if is_space c
      then (if in_run then sub_spaces true r else SPACE :: sub_spaces true r)
      else c :: sub_spaces false r
  end.

Fixpoint lstrip (s : pystr) : pystr :=
  match s with
  | [] => []
  | c :: r => if is_space c then lstrip r else s
  end.

(** [s.strip()]. *)
Definition strip (s : pystr) : pystr := rev (lstrip (rev (lstrip s))).

(** The part of [s] before its last space, when it has one. *)
Fixpoint before_last_space (s : pystr) : option pystr :=
  match s with
  | [] => None
  | c :: r =>
      match before_last_space r with
      | Some h => Some (c :: h)
      | None => if (c =? SPACE)%N then Some [] else None
      end
  end.

(** [s.rsplit(" ", 1)[0]]. *)
Definition rsplit_space_head (s : pystr) : pystr :=
  match before_last_space s with
  | Some h => h
  | None => s
  end.

(** [s.startswith(p)]. *)
Fixpoint startswith (p s : pystr) : bool :=
  match p, s with
  | [], _ => true
  | _ :: _, [] => false
  | a :: p', b :: s' => (a =? b)%N && startswith p' s'
  end.

(** [s.replace("\\" + x, y)] for a one-character [x]: a backslash
    followed by [x] becomes [y], left to right. *)
Fixpoint replace_escape (x y : N) (s : pystr) : pystr :=
  match s with
  | [] => []
  | a :: t =>
      match t with
      | b :: r =>
          if ((a =? 92) && (b =? x))%N then y :: replace_escape x y r
          else a :: replace_escape x y t
      | [] => [a]
      end
  end.

(** ASCII part of [str.lower]. *)
Definition lower_char (c : N) : N :=
  if ((65 <=? c) && (c <=? 90))%N then (c + 32)%N else c.

(** ["\n".join(lines)]. *)
Fixpoint join_lines (lines : list pystr) : pystr :=
  match lines with
  | [] => []
  | [l] => l
  | l :: rest => l ++ 10%N :: join_lines rest
  end.

End Py.
Import Py.

(** ** The dedup store: table [posts] of data/state.db *)

Record post_row := {
  row_id : nat;
  row_feed : pystr;
  row_guid : pystr;
  row_title : pystr;
  row_url : pystr;
  row_published_at : pystr;
  row_posted_at : pystr
}.

(** The rows of [posts], oldest first. *)
Definition table := list post_row.

(** [db_init] on a fresh file: CREATE TABLE IF NOT EXISTS. *)
Definition db_init : table := [].

(** SELECT 1 FROM posts WHERE guid = ? *)
Definition was_posted (guid : pystr) (db : table) : bool :=
  existsb (fun r => str_eqb (row_guid r) guid) db.

(** INSERT OR IGNORE: the UNIQUE constraint on [guid] makes the insert a
    no-op when a row with this guid exists.  Nothing is ever deleted, so
    AUTOINCREMENT hands out the row count plus one. *)
Definition mark_posted (feed guid title url published_at now : pystr)
    (db : table) : table :=
  if was_posted guid db then db
  else db ++ [{| row_id := S (length db); row_feed := feed;
                 row_guid := guid; row_title := title; row_url := url;
                 row_published_at := published_at;
                 row_posted_at := now |}].

(** Number of rows carrying [guid]. *)
Definition count_guid (guid : pystr) (db : table) : nat :=
  length (filter (fun r => str_eqb (row_guid r) guid) db).

(** ** Feed entries, as [feedparser] delivers them *)

(** One element of [entry.media_content] or [entry.media_thumbnail]. *)
Record media := { media_url : option pystr }.

(** One element of [entry.links]. *)
Record feed_link := {
  link_rel : option pystr;
  link_type : option pystr;
  link_href : option pystr
}.

(** An element of [entry.content], or [entry.summary_detail]. *)
Record detail := { detail_value : option pystr }.

(** The keys of an entry that [main.py] reads.  A list field is empty when
    the key is absent; [e_summary_detail] is [None] when the key is absent
    or holds an empty dictionary. *)
Record entry := {
  e_id : option pystr;
  e_guid : option pystr;
  e_link : option pystr;
  e_title : option pystr;
  e_published : option pystr;
  e_updated : option pystr;
  e_published_parsed : list Z;
  e_media_content : list media;
  e_media_thumbnail : list media;
  e_links : list feed_link;
  e_content : list detail;
  e_summary_detail : option detail;
  e_summary : option pystr;
  e_description : option pystr
}.

(** The result of [feedparser.parse]: [fp.feed.get("title")] and
    [fp.entries]. *)
Record parsed_feed := {
  feed_title : option pystr;
  feed_entries : list entry
}.

(** ** Scoreboard events *)

Record logo_ref := { logo_href : option pystr }.

(** [t.get("team", {})]. *)
Record team := {
  shortDisplayName : option pystr;
  displayName : option pystr;
  logo : option pystr;
  logos : list logo_ref
}.

Definition no_team : team :=
  {| shortDisplayName := None; displayName := None; logo := None;
     logos := [] |}.

Record competitor := {
  homeAway : option pystr;
  competitor_team : option team
}.

(** [status_state] is [comp.get("status", {}).get("type", {}).get("state")]. *)
Record competition := {
  competitors : list competitor;
  status_state : option pystr
}.

Record game_event := {
  competitions : list competition;
  event_date : option pystr
}.

(** ** The Telegram transport *)

(** The arguments of one [post_to_channel] call. *)
Record publish_call := {
  p_text : pystr;
  p_image_url : pystr;
  p_image_bytes : bytes
}.

Inductive photo := PhotoBytes (b : bytes) | PhotoUrl (u : pystr).

(** The Bot API request a call turns into. *)
Inductive bot_request :=
| SendPhoto (p : photo) (caption : pystr)
| SendMessage (text : pystr).

(** ** The canvas of the schedule image *)

Definition rgb := (Z * Z * Z)%type.

Inductive font := FontTitle | FontTeam | FontTime | FontSmall.

(** The drawing calls made on the 1080x1080 image, in order.
    [CenteredText] is the hour label, which the code centres in the pill
    box with the font's [textbbox].  [PasteLogo] is a downloaded logo of
    at most [size] pixels, its left edge at [x] and its middle at
    [y_center]; PIL decoding errors leave the slot blank. *)
Inductive draw_cmd :=
| Rectangle (x0 y0 x1 y1 : Z) (fill : rgb)
| RoundedRectangle (x0 y0 x1 y1 radius : Z) (fill : rgb)
| Text (x y : Z) (s : pystr) (fill : rgb) (f : font)
| CenteredText (x0 y0 w h : Z) (s : pystr) (fill : rgb) (f : font)
| PasteLogo (raw : bytes) (x y_center size : Z).

Record canvas := {
  canvas_w : Z;
  canvas_h : Z;
  canvas_bg : rgb;
  canvas_cmds : list draw_cmd
}.

(** ** The outside world *)

(** External calls, as they appear in the trace. *)
Inductive event :=
| EvFeedParse (feed_url : pystr)
| EvTranslate (t : pystr)
| EvHttpGet (url : pystr)
| EvReadPlaceholder
| EvPublish (c : publish_call) (delivered : bool)
| EvSleep (seconds : Z).

(** Configuration read from the environment at start-up, library
    functions whose tables are not reproduced here, and the oracles.
    [None] means that the call raises.  The Bot API client reports every
    failed request (network, time-out, rejected by the server) with a
    [TelegramError]: [telegram_send] is [false] then. *)
Record World := {
  RSS_FEEDS : list pystr;
  CTA_MESSAGE : pystr;
  CTA_INCLUDE_SCHEDULE : bool;
  SCHEDULE_HEADER : pystr;
  (** [POST_TEMPLATE.format(title=, excerpt=, link=, published=, source=)] *)
  POST_TEMPLATE_format : pystr -> pystr -> pystr -> pystr -> pystr
                         -> option pystr;
  (** [html.unescape] *)
  html_unescape : pystr -> pystr;
  (** [datetime( *t[:6]).strftime("%d %b %Y %H:%M")] *)
  strftime_published : list Z -> option pystr;
  (** [isoparse(s).astimezone(tz).strftime("%H:%M")] *)
  isoparse_hhmm : pystr -> option pystr;
  (** the content attribute of the page's og:image meta tag *)
  og_image_content : pystr -> option pystr;
  feedparser_parse : nat -> pystr -> option parsed_feed;
  translator_translate : nat -> pystr -> option pystr;
  requests_get : nat -> pystr -> option (list N);
  scoreboard_events : nat -> option (list game_event);
  read_placeholder : nat -> option bytes;
  telegram_send : nat -> bot_request -> bool;
  utcnow_isoformat : nat -> pystr;
  today_header : nat -> pystr;
  (** [bg.save(buf, format="PNG")] *)
  png_encode : canvas -> option bytes
}.

(** ** State and control *)

Record State := { ledger : table; trace : list event }.

Inductive result (A : Type) := Return (a : A) | Raise.
Arguments Return {A} a.
Arguments Raise {A}.

Definition M (A : Type) := State -> result A * State.

Definition ret {A} (a : A) : M A := fun s => (Return a, s).

Definition bind {A B} (m : M A) (f : A -> M B) : M B :=
  fun s => match m s with
           | (Return a, s') => f a s'
           | (Raise, s') => (Raise, s')
           end.

Notation "x <- m ;; k" := (bind m (fun x => k))
  (at level 61, m at next level, right associativity).
Notation "m ;;; k" := (bind m (fun _ => k))
  (at level 61, right associativity).

(** [try: body / except Exception: handler]. *)
Definition try_except {A} (body handler : M A) : M A :=
  fun s => match body s with
           | (Return a, s') => (Return a, s')
           | (Raise, s') => handler s'
           end.

(** The value of an oracle, or the exception it stands for. *)
Definition returned {A} (o : option A) : M A :=
  fun s => match o with
           | Some a => (Return a, s)
           | None => (Raise, s)
           end.

(** Number of external calls made so far. *)
Definition calls : M nat := fun s => (Return (length (trace s)), s).

Definition emit (e : event) : M unit :=
  fun s => (Return tt, {| ledger := ledger s; trace := e :: trace s |}).

Definition count_publish (t : list event) : nat :=
  length (filter (fun e => match e with EvPublish _ _ => true | _ => false end) t).

Section Program.

Variable w : World.

(** *** Translation *)

Definition translate_to_spanish (text : pystr) (limit : Z) : M pystr :=
  try_except
    (let t := if (limit =? 0) || (len text <=? limit) then text
              else slice_to limit text in
     n <- calls ;;
     emit (EvTranslate t) ;;;
     returned (translator_translate w n t))
    (ret text).

(** *** Image resolution *)

Definition fetch_opengraph_image (article_url : pystr) : M pystr :=
  try_except
    (n <- calls ;;
     emit (EvHttpGet article_url) ;;;
     body <- returned (requests_get w n article_url) ;;
     match og_image_content w body with
     | Some c => if truthy c then ret (strip c) else ret []
     | None => ret []
     end)
    (ret []).

(** [entry[key][0].get("url")] when [entry[key]] is non-empty and the url
    is. *)
Definition media_first_url (l : list media) : option pystr :=
  match l with
  | cand :: _ => if truthy_opt (media_url cand) then media_url cand else None
  | [] => None
  end.

Definition is_image_link (l : feed_link) : bool :=
  (match link_rel l with
   | Some r => str_eqb r (lit "enclosure") || str_eqb r (lit "preview")
   | None => false
   end)
  && startswith (lit "image/") (get_default (link_type l) []).

(** The [for link in entry.get("links", [])] loop: [Some h] when the loop
    returns [link.get("href")], which is [h]. *)
Definition first_image_link (links : list feed_link)
    : option (option pystr) :=
  match find is_image_link links with
  | Some l => Some (link_href l)
  | None => None
  end.

(** The result is [None] where Python returns [None]. *)
Definition get_feed_entry_image_url (e : entry) : M (option pystr) :=
  match media_first_url (e_media_content e) with
  | Some url => ret (Some url)
  | None =>
  match media_first_url (e_media_thumbnail e) with
  | Some url => ret (Some url)
  | None =>
  match first_image_link (e_links e) with
  | Some href => ret href
  | None =>
      let article := get_default (e_link e) [] in
      if truthy article then
        og <- fetch_opengraph_image article ;;
        if truthy og then ret (Some og) else ret (Some [])
      else ret (Some [])
  end end end.

(** *** Excerpt and message text *)

Definition ELLIPSIS : N := 8230.

(** The field chosen by the [try] block of [extract_excerpt]; with typed
    entries the block cannot raise. *)
Definition excerpt_raw (e : entry) : pystr :=
  match e_content e with
  | d :: _ => get_default (detail_value d) []
  | [] =>
      match e_summary_detail e with
      | Some d => get_default (detail_value d) []
      | None => get_default (py_or (e_summary e)
                                   (py_or (e_description e) (Some []))) []
      end
  end.

Definition clean_text (raw : pystr) : pystr :=
  strip (sub_spaces false (html_unescape w (sub_tags None raw))).

Definition truncate_excerpt (text : pystr) (max_chars : Z) : pystr :=
  if max_chars <? len text then
    rsplit_space_head (slice_to max_chars text) ++ [ELLIPSIS]
  else text.

Definition extract_excerpt (e : entry) (max_chars : Z) : pystr :=
  truncate_excerpt (clean_text (excerpt_raw e)) max_chars.

(** "(Sin título)" *)
Definition NO_TITLE : pystr := lit "(Sin t" ++ [237%N] ++ lit "tulo)".

Definition format_entry (feed_name : pystr) (e : entry)
    : M (pystr * pystr) :=
  let title := get_default (e_title e) NO_TITLE in
  let link := get_default (e_link e) [] in
  let published :=
    if truthy_opt (e_published e) then get_default (e_published e) []
    else get_default (e_updated e) [] in
  let published :=
    match e_published_parsed e with
    | [] => published
    | _ :: _ =>
        match strftime_published w (firstn 6 (e_published_parsed e)) with
        | Some p => p
        | None => published
        end
    end in
  let excerpt := extract_excerpt e 350 in
  title_es <- translate_to_spanish title 200 ;;
  excerpt_es <- translate_to_spanish excerpt 1000 ;;
  text <- returned (POST_TEMPLATE_format w title_es excerpt_es link
                      published feed_name) ;;
  ret (text, link).

(** *** Telegram *)

Definition bot_request_of (c : publish_call) : bot_request :=
  if truthy (p_image_bytes c) then
    SendPhoto (PhotoBytes (p_image_bytes c)) (p_text c)
  else if truthy (p_image_url c) then
    SendPhoto (PhotoUrl (p_image_url c)) (p_text c)
  else SendMessage (p_text c).

(** A [TelegramError] is caught and logged. *)
Definition post_to_channel (text image_url : pystr) (image_bytes : bytes)
    : M unit :=
  let c := {| p_text := text; p_image_url := image_url;
              p_image_bytes := image_bytes |} in
  n <- calls ;;
  emit (EvPublish c (telegram_send w n (bot_request_of c))).

(** *** The ingestion loop *)

Definition sql_mark_posted (feed guid title url published_at : pystr)
    : M unit :=
  fun s =>
    (Return tt,
     {| ledger := mark_posted feed guid title url published_at
                    (utcnow_isoformat w (length (trace s))) (ledger s);
        trace := trace s |}).

Definition sql_was_posted (guid : pystr) : M bool :=
  fun s => (Return (was_posted guid (ledger s)), s).

(** [entry.get("id") or entry.get("guid") or entry.get("link")] *)
Definition entry_guid (e : entry) : option pystr :=
  py_or (e_id e) (py_or (e_guid e) (e_link e)).

(** Lines 337-344 of [check_feeds]: image URL, else placeholder bytes,
    else text alone. *)
Definition publish_entry (text : pystr) (img_url : option pystr) : M unit :=
  if truthy_opt img_url then
    post_to_channel text (get_default img_url []) []
  else
    try_except
      (n <- calls ;;
       emit EvReadPlaceholder ;;;
       ph <- returned (read_placeholder w n) ;;
       post_to_channel text [] ph)
      (post_to_channel text [] []).

(** The body of the loop over [fp.entries[:8]]. *)
Definition process_entry (feed_url feed_name : pystr) (e : entry) : M unit :=
  let guid := entry_guid e in
  if negb (truthy_opt guid) then ret tt
  else
    seen <- sql_was_posted (get_default guid []) ;;
    if seen : bool then ret tt
    else
      tl <- format_entry feed_name e ;;
      img_url <- get_feed_entry_image_url e ;;
      publish_entry (fst tl) img_url ;;;
      sql_mark_posted feed_url (get_default guid [])
        (get_default (e_title e) []) (snd tl)
        (get_default (e_published e) []) ;;;
      emit (EvSleep 2).

Fixpoint process_entries (feed_url feed_name : pystr) (es : list entry)
    : M unit :=
  match es with
  | [] => ret tt
  | e :: rest =>
      process_entry feed_url feed_name e ;;;
      process_entries feed_url feed_name rest
  end.

Definition process_feed (feed_url : pystr) : M unit :=
  try_except
    (n <- calls ;;
     emit (EvFeedParse feed_url) ;;;
     fp <- returned (feedparser_parse w n feed_url) ;;
     process_entries feed_url (get_default (feed_title fp) feed_url)
       (firstn 8 (feed_entries fp)))
    (ret tt).

Fixpoint for_each_feed (feeds : list pystr) : M unit :=
  match feeds with
  | [] => ret tt
  | f :: rest => process_feed f ;;; for_each_feed rest
  end.

Definition check_feeds : M unit := for_each_feed (RSS_FEEDS w).

End Program.

Section Schedule.

Variable w : World.

Definition ESPN_SCOREBOARD_URL : pystr :=
  lit "https://site.api.espn.com/apis/site/v2/sports/basketball/nba/scoreboard".

(** [normalize_message]: literal \n and \t of the .env become real ones. *)
Definition normalize_message (s : pystr) : pystr :=
  strip (replace_escape 116 9 (replace_escape 110 10 s)).

Definition download_image_to_bytes (url : pystr) : M bytes :=
  try_except
    (n <- calls ;;
     emit (EvHttpGet url) ;;;
     returned (requests_get w n url))
    (ret []).

(** [requests.get(ESPN_SCOREBOARD_URL, ...)], [raise_for_status],
    [resp.json()] and [data.get("events", [])]. *)
Definition fetch_scoreboard : M (list game_event) :=
  n <- calls ;;
  emit (EvHttpGet ESPN_SCOREBOARD_URL) ;;;
  returned (scoreboard_events w n).

(** *** Who plays *)

Definition team_of (t : competitor) : team :=
  match competitor_team t with Some tm => tm | None => no_team end.

Definition is_side (side : pystr) (t : competitor) : bool :=
  match homeAway t with Some s => str_eqb s side | None => false end.

(** [next((t for t in teams if t.get("homeAway") == side), default)] *)
Definition pick_side (side : pystr) (teams : list competitor)
    (default : competitor) : competitor :=
  match find (is_side side) teams with
  | Some t => t
  | None => default
  end.

Definition team_logo (t : competitor) : option pystr :=
  if truthy_opt (logo (team_of t)) then logo (team_of t)
  else match logos (team_of t) with
       | l :: _ => logo_href l
       | [] => None
       end.

(** [short or team.get("displayName", default)] *)
Definition team_name (t : competitor) (default : pystr) : pystr :=
  if truthy_opt (shortDisplayName (team_of t))
  then get_default (shortDisplayName (team_of t)) []
  else get_default (displayName (team_of t)) default.

(** The two competitors of an event that has them, [None] for an event
    the loops skip with [continue]. *)
Definition event_teams (ev : game_event) : option (competitor * competitor) :=
  match competitions ev with
  | [] => None
  | comp :: _ =>
      match competitors comp with
      | [t1; t2] => Some (t1, t2)
      | _ => None
      end
  end.

Definition well_formed (ev : game_event) : bool :=
  match event_teams ev with Some _ => true | None => false end.

(** *** The image *)

Definition W : Z := 1080.
Definition H : Z := 1080.
Definition pad : Z := 48.
Definition row_h : Z := 150.
Definition max_rows : nat := 6.
Definition title_h : Z := 180.
Definition footer_h : Z := 70.

Definition SHADE_A : rgb := (24, 26, 38).
Definition SHADE_B : rgb := (18, 20, 30).
Definition ROW_RADIUS : Z := 18.

Definition paste_logo (url : option pystr) (x y_center size : Z)
    : M (list draw_cmd) :=
  if negb (truthy_opt url) then ret []
  else
    raw <- download_image_to_bytes (get_default url []) ;;
    if negb (truthy raw) then ret []
    else ret [PasteLogo raw x y_center size].

Definition hour_label (ev : game_event) : pystr :=
  match event_date ev with
  | Some d =>
      match isoparse_hhmm w d with
      | Some h => h
      | None => lit "--:--"
      end
  | None => lit "--:--"
  end.

(** One pass of the loop body for an event with two competitors. *)
Definition draw_row (ev : game_event) (t1 t2 : competitor) (shown : Z)
    : M (list draw_cmd) :=
  let teams := [t1; t2] in
  let home := pick_side (lit "home") teams t1 in
  let away := pick_side (lit "away") teams t2 in
  let home_name := team_name home (lit "Local") in
  let away_name := team_name away (lit "Visita") in
  let y := title_h + 10 in
  let top := y + shown * row_h in
  let bottom := top + row_h - 12 in
  let fill_row := if shown mod 2 =? 0 then SHADE_A else SHADE_B in
  let center_y := (top + bottom) / 2 in
  let pill_w := 150 in
  let pill_h := 44 in
  let pill_x1 := W - pad - 150 - 140 in
  let pill_y1 := center_y - pill_h / 2 in
  a <- paste_logo (team_logo away) (pad + 20) center_y 110 ;;
  h <- paste_logo (team_logo home) (W - pad - 20 - 110) center_y 110 ;;
  ret ([RoundedRectangle pad top (W - pad) bottom ROW_RADIUS fill_row]
       ++ a ++ h
       ++ [Text (pad + 150) (center_y - 24)
             (away_name ++ lit "  @  " ++ home_name) (235, 238, 250) FontTeam;
           RoundedRectangle pill_x1 pill_y1 (pill_x1 + pill_w)
             (pill_y1 + pill_h) 22 (39, 161, 79);
           CenteredText pill_x1 pill_y1 pill_w pill_h (hour_label ev)
             (255, 255, 255) FontTime]).

(** The loop over [events[:max_rows]], from the event it stands at. *)
Fixpoint draw_rows (evs : list game_event) (shown : Z) : M (list draw_cmd) :=
  match evs with
  | [] => ret []
  | ev :: rest =>
      match event_teams ev with
      | None => draw_rows rest shown
      | Some (t1, t2) =>
          r <- draw_row ev t1 t2 shown ;;
          rs <- draw_rows rest (shown + 1) ;;
          ret (r ++ rs)
      end
  end.

Definition schedule_canvas (rows : list draw_cmd) (date_str : pystr)
    : canvas :=
  {| canvas_w := W; canvas_h := H; canvas_bg := (12, 14, 22);
     canvas_cmds :=
       [Rectangle 0 0 W title_h (20, 22, 34);
        Text pad 60 (lit "PARTIDOS NBA DE HOY") (245, 246, 255) FontTitle;
        Text pad 110 date_str (180, 184, 205) FontSmall]
       ++ rows
       ++ [Text pad (H - footer_h + 20) (lit "Fuente: ESPN Scoreboard")
             (170, 174, 196) FontSmall] |}.

(** The canvas before it is encoded. *)
Definition draw_schedule (events : list game_event) : M canvas :=
  n <- calls ;;
  rows <- draw_rows (firstn max_rows events) 0 ;;
  ret (schedule_canvas rows (today_header w n)).

Definition build_daily_schedule_image (events : list game_event) : M bytes :=
  c <- draw_schedule events ;;
  returned (png_encode w c).

(** The fills of the row backgrounds of a canvas, top to bottom. *)
Fixpoint row_fills (cmds : list draw_cmd) : list rgb :=
  match cmds with
  | [] => []
  | RoundedRectangle _ _ _ _ r fill :: rest =>
      if r =? ROW_RADIUS then fill :: row_fills rest else row_fills rest
  | _ :: rest => row_fills rest
  end.

(** Shades A, B, A, ... for [n] rows, the first at position [k]. *)
Fixpoint stripes (k : Z) (n : nat) : list rgb :=
  match n with
  | O => []
  | S n' => (if k mod 2 =? 0 then SHADE_A else SHADE_B) :: stripes (k + 1) n'
  end.

(** *** The text schedule and the call to action *)

(** [f"{x}"] of a value that may be [None]. *)
Definition fstr (o : option pystr) : pystr :=
  match o with Some s => s | None => lit "None" end.

(** [status_map.get(status.lower(), "").strip()].  The keys are ASCII and
    no other character lowers to one of their letters, so the ASCII part
    of [lower] decides the lookup. *)
Definition status_label (state : option pystr) : pystr :=
  let s := map lower_char (get_default state []) in
  if str_eqb s (lit "pre") then lit "Programado"
  else if str_eqb s (lit "in") then lit "EN VIVO"
  else if str_eqb s (lit "post") then lit "Finalizado"
  else [].

Definition text_name (t : competitor) : option pystr :=
  if truthy_opt (shortDisplayName (team_of t))
  then shortDisplayName (team_of t)
  else displayName (team_of t).

Definition text_hour (ev : game_event) : pystr :=
  match event_date ev with
  | Some d =>
      if truthy d then
        match isoparse_hhmm w d with
        | Some h => h
        | None => lit "Horario a confirmar"
        end
      else lit "Horario a confirmar"
  | None => lit "Horario a confirmar"
  end.

Definition schedule_line (ev : game_event) (comp : competition)
    (t1 t2 : competitor) : pystr :=
  let teams := [t1; t2] in
  let home := pick_side (lit "home") teams t1 in
  let away := pick_side (lit "away") teams t2 in
  let status_txt := status_label (status_state comp) in
  [8226%N] ++ lit " " ++ fstr (text_name away) ++ lit " @ "
  ++ fstr (text_name home) ++ lit " " ++ [8212%N] ++ lit " " ++ text_hour ev
  ++ (if truthy status_txt then lit " (" ++ status_txt ++ lit ")" else []).

Fixpoint schedule_lines (evs : list game_event) : list pystr :=
  match evs with
  | [] => []
  | ev :: rest =>
      match competitions ev with
      | comp :: _ =>
          match competitors comp with
          | [t1; t2] => schedule_line ev comp t1 t2 :: schedule_lines rest
          | _ => schedule_lines rest
          end
      | [] => schedule_lines rest
      end
  end.

Definition fetch_todays_games_message : M pystr :=
  try_except
    (events <- fetch_scoreboard ;;
     match events with
     | [] => ret (SCHEDULE_HEADER w
                  ++ [10; 10]%N ++ lit "No hay partidos programados hoy.")
     | _ :: _ =>
         ret (join_lines (SCHEDULE_HEADER w :: [] :: schedule_lines events))
     end)
    (ret (SCHEDULE_HEADER w
          ++ [10; 10]%N ++ lit "No pude obtener los partidos de hoy.")).

(** The message of the call to action. *)
Definition cta_text : M pystr :=
  let msg := normalize_message (CTA_MESSAGE w) in
  if CTA_INCLUDE_SCHEDULE w then
    sched_text <- fetch_todays_games_message ;;
    ret (msg ++ [10; 10]%N ++ sched_text)
  else ret msg.

(** The [try] block of [post_cta]: [true] when it reached its [return]. *)
Definition post_cta_image (msg : pystr) : M bool :=
  try_except
    (events <- fetch_scoreboard ;;
     match events with
     | _ :: _ =>
         img_bytes <- build_daily_schedule_image events ;;
         post_to_channel w msg [] img_bytes ;;;
         ret true
     | [] => ret false
     end)
    (ret false).

Definition post_cta : M unit :=
  msg <- cta_text ;;
  done <- post_cta_image msg ;;
  if done : bool then ret tt else post_to_channel w msg [] [].

End Schedule.

(** ** Poll cycles *)

(** [check_feeds] run once per world, from left to right: the feeds, the
    transport and the clock may answer differently in every cycle. *)
Fixpoint poll_cycles (ws : list World) (s : State) : State :=
  match ws with
  | [] => s
  | w :: rest => poll_cycles rest (snd (check_feeds w s))
  end.

Definition initial_state : State := {| ledger := db_init; trace := [] |}.

(** ** Properties of computations *)

(** [m] leaves the ledger alone and publishes nothing. *)
Definition quiet {A} (m : M A) : Prop :=
  forall s, ledger (snd (m s)) = ledger s
            /\ count_publish (trace (snd (m s))) = count_publish (trace s).

Definition never_raises {A} (m : M A) : Prop :=
  forall s, fst (m s) <> Raise.

(** [m] returns after exactly one more publish call, the ledger
    untouched. *)
Definition publishes_once (m : M unit) : Prop :=
  forall s, fst (m s) = Return tt
            /\ ledger (snd (m s)) = ledger s
            /\ count_publish (trace (snd (m s))) = S (count_publish (trace s)).

(** The guid column holds no value twice, and every publish call of the
    ingestion loop has its row. *)
Definition ledger_ok (s : State) : Prop :=
  NoDup (map row_guid (ledger s))
  /\ count_publish (trace s) = length (ledger s).

(** ** Lists read from the environment *)

(** [s.split(sep)] for a one-character separator. *)
Fixpoint split_on (sep : N) (s : pystr) : list pystr :=
  match s with
  | [] => [[]]
  | c :: r =>
      if (c =? sep)%N then [] :: split_on sep r
      else match split_on sep r with
           | piece :: pieces => (c :: piece) :: pieces
           | [] => [[c]]
           end
  end.

(** [[u.strip() for u in value.split(sep) if u.strip()]], the way
    [RSS_FEEDS] (separator ',') and [CTA_CRONS] (separator ';') are read. *)
Definition env_list (sep : N) (value : pystr) : list pystr :=
  filter truthy (map strip (split_on sep value)).

(** ** Measures *)

Definition count_events (p : event -> bool) (t : list event) : nat :=
  length (filter p t).

Definition is_http_get (e : event) : bool :=
  match e with EvHttpGet _ => true | _ => false end.

Definition is_feed_parse (e : event) : bool :=
  match e with EvFeedParse _ => true | _ => false end.

Definition is_sleep (e : event) : bool :=
  match e with EvSleep _ => true | _ => false end.

Definition is_translate (e : event) : bool :=
  match e with EvTranslate _ => true | _ => false end.

(** Whether [s] holds a backslash followed by [x]. *)
Fixpoint has_escape (x : N) (s : pystr) : bool :=
  match s with
  | [] => false
  | a :: t =>
      match t with
      | b :: _ => ((a =? 92) && (b =? x))%N || has_escape x t
      | [] => false
      end
  end.

(** Neither the first nor the last character of [s] is white space. *)
Definition trimmed (s : pystr) : Prop :=
  (forall c, hd_error s = Some c -> is_space c = false)
  /\ (forall c, hd_error (rev s) = Some c -> is_space c = false).

(** [feedparser.parse(f)] in the trace. *)
Definition is_parse_of (f : pystr) (e : event) : bool :=
  match e with EvFeedParse u => str_eqb u f | _ => false end.

(** The events of kind [p] in the trace of a state. *)
Definition events_of (p : event -> bool) (s : State) : nat :=
  count_events p (trace s).

(** [m] leaves the measure [mu] of the state as it found it. *)
Definition keeps {A} (mu : State -> nat) (m : M A) : Prop :=
  forall s, mu (snd (m s)) = mu s.

(** [m] raises the measure [mu] by [k] at most. *)
Definition adds_at_most {A} (mu : State -> nat) (m : M A) (k : nat) : Prop :=
  forall s, (mu (snd (m s)) <= mu s + k)%nat.

(** All white space of [s] is single spaces: no other white-space
    character, and no space after a space ([after_space] tells whether a
    space precedes [s]). *)
Fixpoint single_spaced (after_space : bool) (s : pystr) : bool :=
  match s with
  | [] => true
  | c :: r =>
      if is_space c
      then (c =? SPACE)%N && negb after_space && single_spaced true r
      else single_spaced false r
  end.

(** The top and bottom edges of the row backgrounds of a canvas, top to
    bottom. *)
Fixpoint row_boxes (cmds : list draw_cmd) : list (Z * Z) :=
  match cmds with
  | [] => []
  | RoundedRectangle _ y0 _ y1 r _ :: rest =>
      if r =? ROW_RADIUS then (y0, y1) :: row_boxes rest else row_boxes rest
  | _ :: rest => row_boxes rest
  end.

(** The edges of [n] rows, the first at position [k]. *)
Fixpoint row_slots (k : Z) (n : nat) : list (Z * Z) :=
  match n with
  | O => []
  | S n' => (190 + k * 150, 190 + k * 150 + 138) :: row_slots (k + 1) n'
  end.

(** The state after the reading of the placeholder was attempted. *)
Definition after_read (s : State) : State :=
  {| ledger := ledger s; trace := EvReadPlaceholder :: trace s |}.

(** ** Sample worlds and inputs *)

(** The default [POST_TEMPLATE]. *)
Definition DEFAULT_POST_TEMPLATE (title excerpt link published source : pystr)
    : option pystr :=
  Some ([128240%N] ++ lit " " ++ title ++ [10; 10]%N ++ excerpt
        ++ [10; 10]%N ++ [128279%N] ++ lit " " ++ link ++ [10%N]
        ++ [128338%N] ++ lit " " ++ published ++ [10%N]
        ++ lit "Fuente: " ++ source).

(** [html.unescape] on text without an ampersand, which it leaves as it
    is; the samples below hold none. *)
Definition unescape_plain (s : pystr) : pystr := s.

Definition sample_game (home away : pystr) : game_event :=
  {| competitions :=
       [{| competitors :=
             [{| homeAway := Some (lit "home");
                 competitor_team :=
                   Some {| shortDisplayName := Some home;
                           displayName := None; logo := None;
                           logos := [] |} |};
              {| homeAway := Some (lit "away");
                 competitor_team :=
                   Some {| shortDisplayName := Some away;
                           displayName := None; logo := None;
                           logos := [] |} |}];
           status_state := Some (lit "pre") |}];
     event_date := Some (lit "2024-01-01T00:30Z") |}.

(** An event without the two-sided competitor structure. *)
Definition malformed_game : game_event :=
  {| competitions := []; event_date := None |}.

Definition g1 := sample_game (lit "Lakers") (lit "Celtics").
Definition g2 := sample_game (lit "Bulls") (lit "Knicks").
Definition g3 := sample_game (lit "Heat") (lit "Nets").
Definition g4 := sample_game (lit "Suns") (lit "Spurs").
Definition g5 := sample_game (lit "Jazz") (lit "Kings").
Definition g6 := sample_game (lit "Bucks") (lit "Hawks").

(** Every external call fails: no network, no placeholder file, the
    transport answers with a [TelegramError]. *)
Definition offline_world : World :=
  {| RSS_FEEDS := [lit "https://feeds.example/nba"];
     CTA_MESSAGE := lit "Hola\n";
     CTA_INCLUDE_SCHEDULE := true;
     SCHEDULE_HEADER := lit "Partidos NBA de hoy";
     POST_TEMPLATE_format := DEFAULT_POST_TEMPLATE;
     html_unescape := unescape_plain;
     strftime_published := fun _ => None;
     isoparse_hhmm := fun _ => None;
     og_image_content := fun _ => None;
     feedparser_parse := fun _ _ => None;
     translator_translate := fun _ _ => None;
     requests_get := fun _ _ => None;
     scoreboard_events := fun _ => None;
     read_placeholder := fun _ => None;
     telegram_send := fun _ _ => false;
     utcnow_isoformat := fun _ => lit "2024-01-01T00:00:00";
     today_header := fun _ => lit "Monday 01 Jan 2024";
     png_encode := fun _ => None |}.

(** Every article page carries an og:image; everything else as in
    [offline_world] except that pages can be fetched. *)
Definition og_world : World :=
  {| RSS_FEEDS := [lit "https://feeds.example/nba"];
     CTA_MESSAGE := lit "Hola\n";
     CTA_INCLUDE_SCHEDULE := true;
     SCHEDULE_HEADER := lit "Partidos NBA de hoy";
     POST_TEMPLATE_format := DEFAULT_POST_TEMPLATE;
     html_unescape := unescape_plain;
     strftime_published := fun _ => None;
     isoparse_hhmm := fun _ => None;
     og_image_content := fun _ => Some (lit "https://example.com/a.png");
     feedparser_parse := fun _ _ => None;
     translator_translate := fun _ _ => None;
     requests_get := fun _ _ => Some (lit "<html>");
     scoreboard_events := fun _ => None;
     read_placeholder := fun _ => None;
     telegram_send := fun _ _ => false;
     utcnow_isoformat := fun _ => lit "2024-01-01T00:00:00";
     today_header := fun _ => lit "Monday 01 Jan 2024";
     png_encode := fun _ => None |}.

Definition sample_entry (id link summary : option pystr)
    (links : list feed_link) : entry :=
  {| e_id := id; e_guid := None; e_link := link;
     e_title := Some (lit "Lakers win");
     e_published := None; e_updated := None; e_published_parsed := [];
     e_media_content := []; e_media_thumbnail := [];
     e_links := links; e_content := []; e_summary_detail := None;
     e_summary := summary; e_description := None |}.

(** An ordinary entry. *)
Definition entry_news : entry :=
  sample_entry (Some (lit "tag:example.com,2024:1"))
    (Some (lit "https://example.com/a")) (Some (lit "Lakers beat Celtics"))
    [].

(** An entry without id, guid or link. *)
Definition entry_anonymous : entry :=
  sample_entry None None (Some (lit "Lakers beat Celtics")) [].

(** An entry whose image enclosure carries no url, as [feedparser] builds
    from [<enclosure type="image/jpeg"/>]. *)
Definition entry_enclosure_without_href : entry :=
  sample_entry (Some (lit "tag:example.com,2024:2"))
    (Some (lit "https://example.com/a")) None
    [{| link_rel := Some (lit "enclosure");
        link_type := Some (lit "image/jpeg");
        link_href := None |}].

(** An entry whose summary is one word of 351 letters. *)
Definition entry_long_word : entry :=
  sample_entry (Some (lit "tag:example.com,2024:3")) None
    (Some (repeat 97%N 351)) [].

Definition sample_row : post_row :=
  {| row_id := 1; row_feed := lit "https://feeds.example/nba";
     row_guid := lit "tag:example.com,2024:1"; row_title := lit "Lakers win";
     row_url := lit "https://example.com/a"; row_published_at := [];
     row_posted_at := lit "2024-01-01T00:00:00" |}.

(** The feed delivers a news entry, an entry without identifiers and the
    news entry again; the translator, the network, the placeholder
    file, the transport and the encoder all work. *)
Definition news_world : World :=
  {| RSS_FEEDS := [lit "https://feeds.example/nba"];
     CTA_MESSAGE := lit "Hola\n";
     CTA_INCLUDE_SCHEDULE := true;
     SCHEDULE_HEADER := lit "Partidos NBA de hoy";
     POST_TEMPLATE_format := DEFAULT_POST_TEMPLATE;
     html_unescape := unescape_plain;
     strftime_published := fun _ => None;
     isoparse_hhmm := fun _ => Some (lit "21:30");
     og_image_content := fun _ => Some (lit "https://example.com/a.png");
     feedparser_parse := fun _ _ =>
       Some {| feed_title := Some (lit "ESPN");
               feed_entries := [entry_news; entry_anonymous; entry_news] |};
     translator_translate := fun _ t => Some (lit "es: " ++ t);
     requests_get := fun _ _ => Some (lit "<html>");
     scoreboard_events := fun _ => Some [g1; malformed_game; g2];
     read_placeholder := fun _ => Some [137; 80; 78; 71]%N;
     telegram_send := fun _ _ => true;
     utcnow_isoformat := fun _ => lit "2024-01-01T00:00:00";
     today_header := fun _ => lit "Monday 01 Jan 2024";
     png_encode := fun _ => Some [137; 80; 78; 71]%N |}.

(** The two competitors of a game between the Lakers, at home, and the
    Celtics. *)
Definition home_lakers : competitor :=
  {| homeAway := Some (lit "home");
     competitor_team :=
       Some {| shortDisplayName := Some (lit "Lakers"); displayName := None;
               logo := Some (lit "https://example.com/lal.png");
               logos := [] |} |}.

Definition away_celtics : competitor :=
  {| homeAway := Some (lit "away");
     competitor_team :=
       Some {| shortDisplayName := None;
               displayName := Some (lit "Boston Celtics"); logo := None;
               logos := [{| logo_href :=
                              Some (lit "https://example.com/bos.png") |}] |} |}.

(** * Proofs *)

(** ** Strings *)

Example sub_tags_paragraph :
  sub_tags None (lit "<p>Hi</p> <b") = lit " Hi  <b".
Proof. reflexivity. Qed.

Example sub_tags_empty_brackets :
  sub_tags None (lit "a<>b<<c>") = lit "a<>b ".
Proof. reflexivity. Qed.

Example sub_spaces_strip :
  strip (sub_spaces false [32; 9; 97; 10; 160; 98; 32]%N) = lit "a b".
Proof. reflexivity. Qed.

Example rsplit_space_head_words :
  rsplit_space_head (lit "hello wor") = lit "hello"
  /\ rsplit_space_head (lit "hello") = lit "hello".
Proof. split; reflexivity. Qed.

Example slice_to_negative : slice_to (-2) (lit "hello") = lit "hel".
Proof. reflexivity. Qed.

Example normalize_message_env :
  normalize_message (lit "A\nB\t\n") = [65; 10; 66]%N.
Proof. reflexivity. Qed.

Lemma str_eqb_eq (a b : pystr) : str_eqb a b = true <-> a = b.
Proof.
  unfold str_eqb. destruct (list_eq_dec N.eq_dec a b); split; congruence.
Qed.

Lemma str_eqb_refl (a : pystr) : str_eqb a a = true.
Proof. now apply str_eqb_eq. Qed.

(** ** The dedup store *)

Lemma was_posted_In (g : pystr) (db : table) :
  was_posted g db = true <-> In g (map row_guid db).
Proof.
  unfold was_posted. rewrite existsb_exists. split.
  - intros [r [Hin Heq]]. apply str_eqb_eq in Heq. subst g.
    now apply in_map.
  - intros Hin. apply in_map_iff in Hin. destruct Hin as [r [Heq Hin]].
    exists r. split; [assumption|]. now apply str_eqb_eq.
Qed.

Lemma was_posted_after_mark (feed g t u p now : pystr) (db : table) :
  was_posted g (mark_posted feed g t u p now db) = true.
Proof.
  unfold mark_posted. destruct (was_posted g db) eqn:Hw; [assumption|].
  unfold was_posted. rewrite existsb_app. simpl.
  rewrite str_eqb_refl. now rewrite orb_true_r.
Qed.

Lemma mark_posted_duplicate (feed g t u p now : pystr) (db : table) :
  was_posted g db = true -> mark_posted feed g t u p now db = db.
Proof. intros Hw. unfold mark_posted. now rewrite Hw. Qed.

Lemma was_posted_mark_mono (feed g g' t u p now : pystr) (db : table) :
  was_posted g' db = true ->
  was_posted g' (mark_posted feed g t u p now db) = true.
Proof.
  intros Hw. unfold mark_posted. destruct (was_posted g db); [assumption|].
  unfold was_posted in *. rewrite existsb_app, Hw. reflexivity.
Qed.

Lemma mark_posted_NoDup (feed g t u p now : pystr) (db : table) :
  NoDup (map row_guid db) ->
  NoDup (map row_guid (mark_posted feed g t u p now db)).
Proof.
  intros Hnd. unfold mark_posted.
  destruct (was_posted g db) eqn:Hw; [assumption|].
  rewrite map_app. simpl. apply NoDup_app.
  - assumption.
  - constructor; [intros []|constructor].
  - intros x Hx [Hy|[]]. subst x.
    apply was_posted_In in Hx. congruence.
Qed.

Lemma mark_posted_length_new (feed g t u p now : pystr) (db : table) :
  was_posted g db = false ->
  length (mark_posted feed g t u p now db) = S (length db).
Proof.
  intros Hw. unfold mark_posted. rewrite Hw, length_app. simpl. lia.
Qed.

Lemma count_guid_NoDup (g : pystr) (db : table) :
  NoDup (map row_guid db) -> (count_guid g db <= 1)%nat.
Proof.
  unfold count_guid. induction db as [|r db IH]; simpl; intros Hnd.
  - lia.
  - inversion Hnd as [|x l Hnotin Hnd']. subst.
    destruct (str_eqb (row_guid r) g) eqn:Heq.
    + apply str_eqb_eq in Heq. simpl.
      assert (Hz : filter (fun r0 => str_eqb (row_guid r0) g) db = []).
      { destruct (filter (fun r0 => str_eqb (row_guid r0) g) db)
          as [|r' l'] eqn:Hf; [reflexivity|].
        assert (Hin : In r' (filter (fun r0 => str_eqb (row_guid r0) g) db))
          by (rewrite Hf; now left).
        apply filter_In in Hin. destruct Hin as [Hin Hg].
        apply str_eqb_eq in Hg. exfalso. apply Hnotin.
        rewrite Heq, <- Hg. now apply in_map. }
      rewrite Hz. simpl. lia.
    + now apply IH.
Qed.

(** ** Computations that publish nothing *)

Lemma quiet_ret {A} (a : A) : quiet (ret a).
Proof. intros s. now split. Qed.

Lemma quiet_calls : quiet calls.
Proof. intros s. now split. Qed.

Lemma quiet_returned {A} (o : option A) : quiet (returned o).
Proof. intros s. unfold returned. destruct o; now split. Qed.

Lemma quiet_bind {A B} (m : M A) (f : A -> M B) :
  quiet m -> (forall a, quiet (f a)) -> quiet (bind m f).
Proof.
  intros Hm Hf s. unfold bind. specialize (Hm s).
  destruct (m s) as [[a|] s1]; simpl in Hm.
  - destruct (Hf a s1) as [H1 H2]. destruct Hm as [H3 H4].
    split; congruence.
  - exact Hm.
Qed.

Lemma quiet_try {A} (body handler : M A) :
  quiet body -> quiet handler -> quiet (try_except body handler).
Proof.
  intros Hb Hh s. unfold try_except. specialize (Hb s).
  destruct (body s) as [[a|] s1]; simpl in Hb.
  - exact Hb.
  - destruct (Hh s1) as [H1 H2]. destruct Hb as [H3 H4].
    split; congruence.
Qed.

Lemma quiet_emit (e : event) :
  (forall c d, e <> EvPublish c d) -> quiet (emit e).
Proof.
  intros He s. split; [reflexivity|]. unfold emit, count_publish. simpl.
  destruct e; try reflexivity. exfalso. now apply (He c delivered).
Qed.

Lemma never_raises_ret {A} (a : A) : never_raises (ret a).
Proof. intros s. discriminate. Qed.

Lemma never_raises_bind {A B} (m : M A) (f : A -> M B) :
  never_raises m -> (forall a, never_raises (f a)) -> never_raises (bind m f).
Proof.
  intros Hm Hf s. unfold bind. specialize (Hm s).
  destruct (m s) as [[a|] s1]; simpl in Hm.
  - apply Hf.
  - congruence.
Qed.

Lemma never_raises_try {A} (body handler : M A) :
  never_raises handler -> never_raises (try_except body handler).
Proof.
  intros Hh s. unfold try_except.
  destruct (body s) as [[a|] s1]; simpl; [discriminate|apply Hh].
Qed.

(** An invariant of each step is an invariant of the whole. *)
Lemma bind_preserves {A B} (I : State -> Prop) (m : M A) (f : A -> M B) :
  (forall s, I s -> I (snd (m s))) ->
  (forall a s, I s -> I (snd (f a s))) ->
  forall s, I s -> I (snd (bind m f s)).
Proof.
  intros Hm Hf s Hs. unfold bind. specialize (Hm s Hs).
  destruct (m s) as [[a|] s1]; cbn [snd] in *; [now apply Hf|exact Hm].
Qed.

Lemma try_preserves {A} (I : State -> Prop) (body handler : M A) :
  (forall s, I s -> I (snd (body s))) ->
  (forall s, I s -> I (snd (handler s))) ->
  forall s, I s -> I (snd (try_except body handler s)).
Proof.
  intros Hb Hh s Hs. unfold try_except. specialize (Hb s Hs).
  destruct (body s) as [[a|] s1]; cbn [snd] in *; [exact Hb|now apply Hh].
Qed.

Ltac quiet_step :=
  repeat first
    [ apply quiet_ret | apply quiet_calls | apply quiet_returned
    | apply quiet_emit; discriminate
    | apply quiet_try | apply quiet_bind; [|intros ?] ].

Section Frames.

Variable w : World.

Lemma translate_quiet (text : pystr) (limit : Z) :
  quiet (translate_to_spanish w text limit).
Proof. unfold translate_to_spanish. quiet_step. Qed.

Lemma translate_never_raises (text : pystr) (limit : Z) :
  never_raises (translate_to_spanish w text limit).
Proof.
  unfold translate_to_spanish. apply never_raises_try, never_raises_ret.
Qed.

Lemma og_quiet (url : pystr) : quiet (fetch_opengraph_image w url).
Proof.
  unfold fetch_opengraph_image. quiet_step.
  destruct (og_image_content w a1) as [c|]; [destruct (truthy c)|];
    apply quiet_ret.
Qed.

Lemma og_never_raises (url : pystr) :
  never_raises (fetch_opengraph_image w url).
Proof.
  unfold fetch_opengraph_image. apply never_raises_try, never_raises_ret.
Qed.

Lemma resolver_quiet (e : entry) : quiet (get_feed_entry_image_url w e).
Proof.
  unfold get_feed_entry_image_url.
  destruct (media_first_url (e_media_content e)); [apply quiet_ret|].
  destruct (media_first_url (e_media_thumbnail e)); [apply quiet_ret|].
  destruct (first_image_link (e_links e)); [apply quiet_ret|].
  destruct (truthy (get_default (e_link e) [])); [|apply quiet_ret].
  apply quiet_bind; [apply og_quiet|]. intros og.
  destruct (truthy og); apply quiet_ret.
Qed.

Lemma resolver_never_raises (e : entry) :
  never_raises (get_feed_entry_image_url w e).
Proof.
  unfold get_feed_entry_image_url.
  destruct (media_first_url (e_media_content e)); [apply never_raises_ret|].
  destruct (media_first_url (e_media_thumbnail e)); [apply never_raises_ret|].
  destruct (first_image_link (e_links e)); [apply never_raises_ret|].
  destruct (truthy (get_default (e_link e) [])); [|apply never_raises_ret].
  apply never_raises_bind; [apply og_never_raises|]. intros og.
  destruct (truthy og); apply never_raises_ret.
Qed.

Lemma format_entry_quiet (feed_name : pystr) (e : entry) :
  quiet (format_entry w feed_name e).
Proof.
  unfold format_entry.
  apply quiet_bind; [apply translate_quiet|]. intros t.
  apply quiet_bind; [apply translate_quiet|]. intros x.
  quiet_step.
Qed.

(** The transport's errors stay inside [post_to_channel]. *)
Lemma post_to_channel_once (text url : pystr) (b : bytes) :
  publishes_once (post_to_channel w text url b).
Proof. intros s. unfold post_to_channel, bind, calls, emit. simpl. auto. Qed.

Lemma post_to_channel_state (text url : pystr) (b : bytes) (s : State) :
  post_to_channel w text url b s
  = (Return tt,
     {| ledger := ledger s;
        trace :=
          EvPublish {| p_text := text; p_image_url := url;
                       p_image_bytes := b |}
            (telegram_send w (length (trace s))
               (bot_request_of {| p_text := text; p_image_url := url;
                                  p_image_bytes := b |}))
          :: trace s |}).
Proof. reflexivity. Qed.

Lemma publish_entry_once (text : pystr) (img : option pystr) :
  publishes_once (publish_entry w text img).
Proof.
  intros s. unfold publish_entry.
  destruct (truthy_opt img); [apply post_to_channel_once|].
  unfold try_except, bind, calls, emit, returned. simpl.
  destruct (read_placeholder w (length (trace s))) as [ph|]; simpl; auto.
Qed.

End Frames.

(** ** One entry of a feed *)

Section Ingestion.

Variable w : World.

Lemma process_entry_no_guid (fu fn : pystr) (e : entry) (s : State) :
  truthy_opt (entry_guid e) = false ->
  process_entry w fu fn e s = (Return tt, s).
Proof. intros Hg. unfold process_entry. now rewrite Hg. Qed.

Lemma process_entry_seen (fu fn : pystr) (e : entry) (s : State) :
  was_posted (get_default (entry_guid e) []) (ledger s) = true ->
  process_entry w fu fn e s = (Return tt, s).
Proof.
  intros Hw. unfold process_entry.
  destruct (truthy_opt (entry_guid e)); [|reflexivity]. simpl.
  unfold bind, sql_was_posted. now rewrite Hw.
Qed.

(** A new entry: either formatting raises before anything is published,
    or the entry is published once and then recorded. *)
Lemma process_entry_new (fu fn : pystr) (e : entry) (s : State) :
  truthy_opt (entry_guid e) = true ->
  was_posted (get_default (entry_guid e) []) (ledger s) = false ->
  (fst (format_entry w fn e s) = Raise
   /\ fst (process_entry w fu fn e s) = Raise
   /\ ledger (snd (process_entry w fu fn e s)) = ledger s
   /\ count_publish (trace (snd (process_entry w fu fn e s)))
      = count_publish (trace s))
  \/
  (exists text link now,
     fst (format_entry w fn e s) = Return (text, link)
     /\ fst (process_entry w fu fn e s) = Return tt
     /\ ledger (snd (process_entry w fu fn e s))
        = mark_posted fu (get_default (entry_guid e) [])
            (get_default (e_title e) []) link
            (get_default (e_published e) []) now (ledger s)
     /\ count_publish (trace (snd (process_entry w fu fn e s)))
        = S (count_publish (trace s))).
Proof.
  intros Hg Hw.
  unfold process_entry, bind, sql_was_posted, sql_mark_posted, emit.
  rewrite Hg. simpl. rewrite Hw.
  destruct (format_entry_quiet w fn e s) as [Hl1 Hc1].
  destruct (format_entry w fn e s) as [[[text link]|] s1]; simpl in *;
    [right|left; auto].
  destruct (resolver_quiet w e s1) as [Hl2 Hc2].
  pose proof (resolver_never_raises w e s1) as Hr.
  destruct (get_feed_entry_image_url w e s1) as [[img|] s2]; simpl in *;
    [|congruence].
  destruct (publish_entry_once w text img s2) as [Hp [Hl3 Hc3]].
  destruct (publish_entry w text img s2) as [[[]|] s3]; simpl in *;
    [|discriminate].
  exists text, link, (utcnow_isoformat w (length (trace s3))).
  repeat split.
  - congruence.
  - unfold count_publish in *. simpl. congruence.
Qed.

Lemma process_entry_ledger_ok (fu fn : pystr) (e : entry) (s : State) :
  ledger_ok s -> ledger_ok (snd (process_entry w fu fn e s)).
Proof.
  intros [Hnd Hcount].
  destruct (truthy_opt (entry_guid e)) eqn:Hg.
  2:{ rewrite process_entry_no_guid by assumption. now split. }
  destruct (was_posted (get_default (entry_guid e) []) (ledger s)) eqn:Hw.
  { rewrite process_entry_seen by assumption. now split. }
  destruct (process_entry_new fu fn e s Hg Hw)
    as [[_ [_ [Hl Hc]]]|[text [link [now [_ [_ [Hl Hc]]]]]]].
  - split; [now rewrite Hl|congruence].
  - split.
    + rewrite Hl. now apply mark_posted_NoDup.
    + rewrite Hc, Hl, mark_posted_length_new by assumption. congruence.
Qed.

Lemma process_entries_ledger_ok (fu fn : pystr) (es : list entry) :
  forall s, ledger_ok s -> ledger_ok (snd (process_entries w fu fn es s)).
Proof.
  induction es as [|e es IH]; cbn [process_entries].
  - intros s Hs. exact Hs.
  - apply bind_preserves; [apply process_entry_ledger_ok|intros _; exact IH].
Qed.

Lemma process_feed_never_raises (f : pystr) : never_raises (process_feed w f).
Proof. unfold process_feed. apply never_raises_try, never_raises_ret. Qed.

Lemma process_feed_ledger_ok (f : pystr) (s : State) :
  ledger_ok s -> ledger_ok (snd (process_feed w f s)).
Proof.
  revert s. unfold process_feed.
  apply try_preserves; [|intros s Hs; exact Hs].
  apply bind_preserves; [intros s Hs; exact Hs|]. intros n.
  apply bind_preserves; [intros s Hs; exact Hs|]. intros _.
  apply bind_preserves.
  - intros s Hs. unfold returned.
    destruct (feedparser_parse w n f); exact Hs.
  - intros fp. apply process_entries_ledger_ok.
Qed.

Lemma for_each_feed_ledger_ok (feeds : list pystr) :
  forall s, ledger_ok s -> ledger_ok (snd (for_each_feed w feeds s)).
Proof.
  induction feeds as [|f feeds IH]; cbn [for_each_feed].
  - intros s Hs. exact Hs.
  - apply bind_preserves; [apply process_feed_ledger_ok|intros _; exact IH].
Qed.

Lemma for_each_feed_returns (feeds : list pystr) :
  forall s, fst (for_each_feed w feeds s) = Return tt.
Proof.
  induction feeds as [|f feeds IH]; intros s; simpl.
  - reflexivity.
  - unfold bind. pose proof (process_feed_never_raises f s) as H1.
    destruct (process_feed w f s) as [[[]|] s1]; simpl in *.
    + apply IH.
    + congruence.
Qed.

End Ingestion.

Lemma poll_cycles_ledger_ok (ws : list World) :
  forall s, ledger_ok s -> ledger_ok (poll_cycles ws s).
Proof.
  induction ws as [|w ws IH]; intros s Hs; simpl.
  - exact Hs.
  - apply IH. unfold check_feeds. now apply for_each_feed_ledger_ok.
Qed.

Lemma initial_state_ok : ledger_ok initial_state.
Proof. split; [constructor|reflexivity]. Qed.

(** A recorded guid stays recorded: the ledger only grows. *)
Lemma process_entry_keeps (w : World) (g fu fn : pystr) (e : entry)
    (s : State) :
  was_posted g (ledger s) = true ->
  was_posted g (ledger (snd (process_entry w fu fn e s))) = true.
Proof.
  intros Hs.
  destruct (truthy_opt (entry_guid e)) eqn:Hg.
  2:{ now rewrite process_entry_no_guid. }
  destruct (was_posted (get_default (entry_guid e) []) (ledger s)) eqn:Hw.
  { now rewrite process_entry_seen. }
  destruct (process_entry_new w fu fn e s Hg Hw)
    as [[_ [_ [Hl _]]]|[text [link [now [_ [_ [Hl _]]]]]]]; rewrite Hl.
  - exact Hs.
  - now apply was_posted_mark_mono.
Qed.

Lemma check_feeds_keeps (w : World) (g : pystr) (s : State) :
  was_posted g (ledger s) = true ->
  was_posted g (ledger (snd (check_feeds w s))) = true.
Proof.
  revert s. unfold check_feeds.
  induction (RSS_FEEDS w) as [|f feeds IH]; cbn [for_each_feed].
  - intros s Hs. exact Hs.
  - apply (bind_preserves (fun s => was_posted g (ledger s) = true));
      [|intros _; exact IH].
    unfold process_feed.
    apply (try_preserves (fun s => was_posted g (ledger s) = true));
      [|intros s Hs; exact Hs].
    apply (bind_preserves (fun s => was_posted g (ledger s) = true));
      [intros s Hs; exact Hs|]. intros n.
    apply (bind_preserves (fun s => was_posted g (ledger s) = true));
      [intros s Hs; exact Hs|]. intros _.
    apply (bind_preserves (fun s => was_posted g (ledger s) = true)).
    + intros s Hs. unfold returned.
      destruct (feedparser_parse w n f); exact Hs.
    + intros fp.
      induction (firstn 8 (feed_entries fp)) as [|e es IHe];
        cbn [process_entries].
      * intros s Hs. exact Hs.
      * apply (bind_preserves (fun s => was_posted g (ledger s) = true));
          [|intros _; exact IHe].
        intros s Hs. now apply process_entry_keeps.
Qed.

Lemma poll_cycles_keep (ws : list World) (g : pystr) :
  forall s, was_posted g (ledger s) = true ->
            was_posted g (ledger (poll_cycles ws s)) = true.
Proof.
  induction ws as [|w ws IH]; intros s Hs; simpl.
  - exact Hs.
  - apply IH. now apply check_feeds_keeps.
Qed.

(** ** The claims on the ingestion loop *)

(** C1. [was_posted] answers true after [mark_posted] for that guid; a
    [mark_posted] with a guid already present leaves the table as it is;
    and after any number of poll cycles, whatever the feeds deliver and
    the transport answers, no guid has more than one row, each row
    standing for exactly one publish call. *)
Theorem C1_one_record_per_guid :
  (forall feed g t u p now db,
      was_posted g (mark_posted feed g t u p now db) = true)
  /\ (forall feed g t u p now db,
         was_posted g db = true -> mark_posted feed g t u p now db = db)
  /\ (forall ws g,
         (count_guid g (ledger (poll_cycles ws initial_state)) <= 1)%nat
         /\ count_publish (trace (poll_cycles ws initial_state))
            = length (ledger (poll_cycles ws initial_state))).
Proof.
  split; [|split].
  - intros. apply was_posted_after_mark.
  - intros feed g t u p now db. apply mark_posted_duplicate.
  - intros ws g.
    destruct (poll_cycles_ledger_ok ws initial_state initial_state_ok)
      as [Hnd Hc].
    split; [now apply count_guid_NoDup|exact Hc].
Qed.

Lemma C1_one_record_per_guid_witness :
  was_posted (lit "tag:example.com,2024:1") [sample_row] = true
  /\ mark_posted (lit "https://other.example/rss")
       (lit "tag:example.com,2024:1") (lit "Again") [] []
       (lit "2024-01-02T00:00:00") [sample_row]
     = [sample_row].
Proof.
  split; [reflexivity|].
  apply (proj1 (proj2 C1_one_record_per_guid)). reflexivity.
Defined.

(** C2. A new entry whose message could be formatted is published once
    and then recorded, whatever the transport answers: [post_to_channel]
    always returns, the guid is in the ledger afterwards, and every later
    occurrence of the guid, in this or any later poll cycle, is skipped
    without a publish call. *)
Theorem C2_recorded_whatever_the_delivery (w : World) (fu fn : pystr)
    (e : entry) (s : State) (text link : pystr) :
  truthy_opt (entry_guid e) = true ->
  was_posted (get_default (entry_guid e) []) (ledger s) = false ->
  fst (format_entry w fn e s) = Return (text, link) ->
  (forall t u b s0, fst (post_to_channel w t u b s0) = Return tt)
  /\ fst (process_entry w fu fn e s) = Return tt
  /\ count_publish (trace (snd (process_entry w fu fn e s)))
     = S (count_publish (trace s))
  /\ was_posted (get_default (entry_guid e) [])
       (ledger (snd (process_entry w fu fn e s))) = true
  /\ (forall ws w' fu' fn' e',
         entry_guid e' = entry_guid e ->
         process_entry w' fu' fn' e'
           (poll_cycles ws (snd (process_entry w fu fn e s)))
         = (Return tt, poll_cycles ws (snd (process_entry w fu fn e s)))).
Proof.
  intros Hg Hw Hf.
  assert (Hrec : fst (process_entry w fu fn e s) = Return tt
                 /\ count_publish (trace (snd (process_entry w fu fn e s)))
                    = S (count_publish (trace s))
                 /\ was_posted (get_default (entry_guid e) [])
                      (ledger (snd (process_entry w fu fn e s))) = true).
  { destruct (process_entry_new w fu fn e s Hg Hw)
      as [[Hraise _]|[text' [link' [now [_ [Hr [Hl Hc]]]]]]].
    - congruence.
    - repeat split; try assumption.
      rewrite Hl. apply was_posted_after_mark. }
  destruct Hrec as [Hr [Hc Hp]].
  repeat split; try assumption.
  intros ws w' fu' fn' e' He.
  apply process_entry_seen. rewrite He. now apply poll_cycles_keep.
Qed.

Lemma C2_recorded_whatever_the_delivery_witness :
  was_posted (lit "tag:example.com,2024:1") (ledger initial_state) = false
  /\ was_posted (lit "tag:example.com,2024:1")
       (ledger (snd (process_entry offline_world
                       (lit "https://feeds.example/nba") (lit "ESPN")
                       entry_news initial_state))) = true.
Proof.
  split; [reflexivity|].
  eapply proj1. eapply proj2. eapply proj2. eapply proj2.
  eapply (C2_recorded_whatever_the_delivery offline_world
            (lit "https://feeds.example/nba") (lit "ESPN") entry_news
            initial_state); reflexivity.
Defined.

(** C3. An entry without id, guid and link (absent or empty) is neither
    published nor recorded: the state is untouched and the loop goes on
    with the next entry. *)
Theorem C3_entry_without_guid_dropped (w : World) (fu fn : pystr)
    (e : entry) (rest : list entry) (s : State) :
  truthy_opt (e_id e) = false ->
  truthy_opt (e_guid e) = false ->
  truthy_opt (e_link e) = false ->
  process_entry w fu fn e s = (Return tt, s)
  /\ process_entries w fu fn (e :: rest) s = process_entries w fu fn rest s.
Proof.
  intros Hi Hgd Hl.
  assert (Hg : truthy_opt (entry_guid e) = false).
  { unfold entry_guid, py_or. rewrite Hi, Hgd. exact Hl. }
  split.
  - now apply process_entry_no_guid.
  - cbn [process_entries]. unfold bind.
    now rewrite process_entry_no_guid.
Qed.

Lemma C3_entry_without_guid_dropped_witness :
  process_entries offline_world (lit "https://feeds.example/nba")
    (lit "ESPN") [entry_anonymous; entry_news] initial_state
  = process_entries offline_world (lit "https://feeds.example/nba")
      (lit "ESPN") [entry_news] initial_state.
Proof.
  apply (C3_entry_without_guid_dropped offline_world
           (lit "https://feeds.example/nba") (lit "ESPN") entry_anonymous
           [entry_news] initial_state); reflexivity.
Defined.

(** ** The image resolver *)

Section Resolver.

Variable w : World.

(** A media attachment with a URL wins: no other tier is looked at and
    nothing is fetched. *)
Lemma resolver_media_wins (e : entry) (url : pystr) (s : State) :
  media_first_url (e_media_content e) = Some url
  \/ (media_first_url (e_media_content e) = None
      /\ media_first_url (e_media_thumbnail e) = Some url) ->
  get_feed_entry_image_url w e s = (Return (Some url), s).
Proof.
  unfold get_feed_entry_image_url. intros [H|[H1 H2]].
  - now rewrite H.
  - now rewrite H1, H2.
Qed.

(** Without media, the first image enclosure or preview link decides, and
    nothing is fetched. *)
Lemma resolver_enclosure_wins (e : entry) (href : option pystr) (s : State) :
  media_first_url (e_media_content e) = None ->
  media_first_url (e_media_thumbnail e) = None ->
  first_image_link (e_links e) = Some href ->
  get_feed_entry_image_url w e s = (Return href, s).
Proof.
  unfold get_feed_entry_image_url. intros H1 H2 H3. now rewrite H1, H2, H3.
Qed.

(** Without media and image link, the article page is fetched, once, and
    its og:image is the result, empty when there is none. *)
Lemma resolver_falls_to_og (e : entry) (article og : pystr) (s s1 : State) :
  media_first_url (e_media_content e) = None ->
  media_first_url (e_media_thumbnail e) = None ->
  first_image_link (e_links e) = None ->
  e_link e = Some article ->
  truthy article = true ->
  fetch_opengraph_image w article s = (Return og, s1) ->
  get_feed_entry_image_url w e s = (Return (Some og), s1).
Proof.
  unfold get_feed_entry_image_url. intros H1 H2 H3 H4 H5 H6.
  rewrite H1, H2, H3, H4. simpl. rewrite H5. unfold bind. rewrite H6.
  destruct og; reflexivity.
Qed.

(** Nothing found by any tier: the empty string. *)
Lemma resolver_nothing_found (e : entry) (s : State) :
  media_first_url (e_media_content e) = None ->
  media_first_url (e_media_thumbnail e) = None ->
  first_image_link (e_links e) = None ->
  truthy_opt (e_link e) = false ->
  get_feed_entry_image_url w e s = (Return (Some []), s).
Proof.
  unfold get_feed_entry_image_url. intros H1 H2 H3 H4.
  rewrite H1, H2, H3.
  destruct (e_link e) as [a|]; simpl in *; [rewrite H4|]; reflexivity.
Qed.

End Resolver.

(** C4. Where the fallback order breaks: the entry's only image enclosure
    has no url.  The second tier then ends the chain with Python's [None]:
    when no tier can give an image the result is [None], not the empty
    string, and when the article page carries an og:image it is never
    fetched, although the third tier would have found the image. *)
Theorem C4_enclosure_without_href_ends_the_chain :
  get_feed_entry_image_url offline_world entry_enclosure_without_href
    initial_state
  = (Return None, initial_state)
  /\ get_feed_entry_image_url og_world entry_enclosure_without_href
       initial_state
     = (Return None, initial_state)
  /\ fst (fetch_opengraph_image og_world (lit "https://example.com/a")
            initial_state)
     = Return (lit "https://example.com/a.png").
Proof. repeat split. Qed.

(** ** Three-tier degradation *)

(** C5. The publish step of the loop makes exactly one [post_to_channel]
    call: with the resolved URL when there is one; otherwise with the
    bytes read from the placeholder file; and with the text alone when
    the file cannot be read. *)
Theorem C5_image_placeholder_text (w : World) (text : pystr)
    (img : option pystr) (s : State) :
  publishes_once (publish_entry w text img)
  /\ (forall url, img = Some url -> truthy url = true ->
      publish_entry w text img s = post_to_channel w text url [] s)
  /\ (forall ph, truthy_opt img = false ->
      read_placeholder w (length (trace s)) = Some ph ->
      publish_entry w text img s
      = post_to_channel w text [] ph (after_read s))
  /\ (truthy_opt img = false ->
      read_placeholder w (length (trace s)) = None ->
      publish_entry w text img s
      = post_to_channel w text [] [] (after_read s)
      /\ bot_request_of {| p_text := text; p_image_url := [];
                           p_image_bytes := [] |} = SendMessage text)
  /\ (forall fu fn e,
      truthy_opt (entry_guid e) = true ->
      was_posted (get_default (entry_guid e) []) (ledger s) = false ->
      fst (format_entry w fn e s) <> Raise ->
      count_publish (trace (snd (process_entry w fu fn e s)))
      = S (count_publish (trace s))).
Proof.
  split; [apply publish_entry_once|]. unfold publish_entry.
  split; [|split; [|split]].
  - intros url -> Hu. simpl. now rewrite Hu.
  - intros ph Hi Hp. rewrite Hi.
    unfold try_except, bind, calls, emit, returned. simpl. now rewrite Hp.
  - intros Hi Hp. rewrite Hi. split; [|reflexivity].
    unfold try_except, bind, calls, emit, returned. simpl. now rewrite Hp.
  - intros fu fn e Hg Hw Hf.
    destruct (process_entry_new w fu fn e s Hg Hw)
      as [[Hraise _]|[t [l [now [_ [_ [_ Hc]]]]]]]; [contradiction|exact Hc].
Qed.

Lemma C5_image_placeholder_text_witness :
  publish_entry offline_world (lit "Lakers win") (Some []) initial_state
  = post_to_channel offline_world (lit "Lakers win") [] []
      (after_read initial_state).
Proof.
  apply (C5_image_placeholder_text offline_world (lit "Lakers win")
           (Some []) initial_state); reflexivity.
Defined.

(** ** Excerpts *)

Lemma before_last_space_spec (s h : pystr) :
  before_last_space s = Some h ->
  exists t, s = h ++ SPACE :: t /\ before_last_space t = None.
Proof.
  revert h. induction s as [|c r IH]; simpl; intros h Hs; [discriminate|].
  destruct (before_last_space r) as [h'|] eqn:Hr.
  - inversion Hs; subst h. destruct (IH h' eq_refl) as [t [Ht Hn]].
    exists t. split; [simpl; now rewrite <- Ht|exact Hn].
  - destruct (N.eqb_spec c SPACE) as [->|]; [|discriminate].
    inversion Hs; subst h. exists r. now split.
Qed.

Lemma before_last_space_none (s : pystr) :
  before_last_space s = None <-> ~ In SPACE s.
Proof.
  induction s as [|c r IH]; simpl.
  - split; [intros _ []|reflexivity].
  - destruct (before_last_space r) as [h|].
    + split; [discriminate|]. intros Hn. exfalso.
      assert (Hr : ~ In SPACE r) by (intros Hin; apply Hn; now right).
      apply IH in Hr. discriminate.
    + destruct (N.eqb_spec c SPACE) as [->|Hc].
      * split; [discriminate|]. intros Hn. exfalso. apply Hn. now left.
      * split; [|reflexivity]. intros _ [Heq|Hin]; [congruence|].
        now apply (proj1 IH).
Qed.

(** Text within the limit comes back as it is. *)
Lemma truncate_short (text : pystr) (max_chars : Z) :
  len text <= max_chars -> truncate_excerpt text max_chars = text.
Proof.
  intros Hl. unfold truncate_excerpt.
  destruct (Z.ltb_spec max_chars (len text)); [lia|reflexivity].
Qed.

(** Longer text whose first [max_chars] characters hold a space is cut at
    the last such space: what is kept is followed by a space in the
    text, and holds no more than [max_chars] characters. *)
Lemma truncate_at_space (text h : pystr) (max_chars : Z) :
  0 <= max_chars < len text ->
  before_last_space (firstn (Z.to_nat max_chars) text) = Some h ->
  truncate_excerpt text max_chars = h ++ [ELLIPSIS]
  /\ (exists rest, text = h ++ SPACE :: rest)
  /\ len h < max_chars.
Proof.
  intros [H0 Hl] Hs. unfold truncate_excerpt, rsplit_space_head, slice_to.
  destruct (Z.ltb_spec max_chars (len text)); [|lia].
  destruct (Z.leb_spec 0 max_chars); [|lia].
  rewrite Hs. split; [reflexivity|].
  destruct (before_last_space_spec _ _ Hs) as [t [Ht _]].
  split.
  - exists (t ++ skipn (Z.to_nat max_chars) text).
    rewrite <- (firstn_skipn (Z.to_nat max_chars) text) at 1.
    rewrite Ht, <- app_assoc. reflexivity.
  - assert (Hlen : length (firstn (Z.to_nat max_chars) text)
                   = Z.to_nat max_chars).
    { apply firstn_length_le. unfold len in Hl. lia. }
    rewrite Ht, length_app in Hlen. simpl in Hlen. unfold len. lia.
Qed.

(** Longer text without a space in its first [max_chars] characters is cut
    after exactly [max_chars] characters, wherever that falls. *)
Lemma truncate_without_space (text : pystr) (max_chars : Z) :
  0 <= max_chars < len text ->
  ~ In SPACE (firstn (Z.to_nat max_chars) text) ->
  truncate_excerpt text max_chars
  = firstn (Z.to_nat max_chars) text ++ [ELLIPSIS].
Proof.
  intros [H0 Hl] Hs. unfold truncate_excerpt, rsplit_space_head, slice_to.
  destruct (Z.ltb_spec max_chars (len text)); [|lia].
  destruct (Z.leb_spec 0 max_chars); [|lia].
  apply before_last_space_none in Hs. now rewrite Hs.
Qed.

(** C6. The case the truncation misses: a first word longer than the
    limit.  The summary is one word of 351 letters; the excerpt keeps its
    first 350 letters and appends the ellipsis, so the cut falls between
    the 350th and the 351st letter of the word. *)
Theorem C6_long_first_word_is_split :
  clean_text offline_world (excerpt_raw entry_long_word) = repeat 97%N 351
  /\ extract_excerpt offline_world entry_long_word 350
     = repeat 97%N 350 ++ [ELLIPSIS].
Proof. split; vm_compute; reflexivity. Qed.

(** ** Translation *)

(** C7. With a positive limit the translator receives the first [limit]
    characters of the text, never more; its answer is returned, and when
    it raises the whole original text is. *)
Theorem C7_translate_truncates_and_falls_back (w : World) (text : pystr)
    (limit : Z) (s : State) :
  0 < limit ->
  len (firstn (Z.to_nat limit) text) <= limit
  /\ translate_to_spanish w text limit s
     = (Return
          match translator_translate w (length (trace s))
                  (firstn (Z.to_nat limit) text) with
          | Some translated => translated
          | None => text
          end,
        {| ledger := ledger s;
           trace := EvTranslate (firstn (Z.to_nat limit) text) :: trace s |}).
Proof.
  intros Hpos. split.
  - unfold len. rewrite length_firstn. lia.
  - unfold translate_to_spanish, try_except, bind, calls, emit, returned.
    simpl.
    assert (Ht : (if (limit =? 0) || (len text <=? limit) then text
                  else slice_to limit text)
                 = firstn (Z.to_nat limit) text).
    { destruct (Z.eqb_spec limit 0); [lia|]. simpl.
      destruct (Z.leb_spec (len text) limit) as [Hle|Hgt].
      - symmetry. apply firstn_all2. unfold len in Hle. lia.
      - unfold slice_to. destruct (Z.leb_spec 0 limit); [reflexivity|lia]. }
    rewrite Ht.
    destruct (translator_translate w (length (trace s))
                (firstn (Z.to_nat limit) text)); reflexivity.
Qed.

Lemma C7_translate_truncates_and_falls_back_witness :
  translate_to_spanish offline_world (lit "Lakers win") 6 initial_state
  = (Return (lit "Lakers win"),
     {| ledger := []; trace := [EvTranslate (lit "Lakers")] |}).
Proof.
  apply (C7_translate_truncates_and_falls_back offline_world
           (lit "Lakers win") 6 initial_state). lia.
Defined.

(** ** The schedule image *)

Lemma row_fills_app (a b : list draw_cmd) :
  row_fills (a ++ b) = row_fills a ++ row_fills b.
Proof.
  induction a as [|c a IH]; simpl; [reflexivity|].
  destruct c; try exact IH.
  destruct (radius =? ROW_RADIUS); simpl; now rewrite IH.
Qed.

(** The shade at a position is A when the position is even, B when odd. *)
Lemma stripes_nth (n k : nat) (j : Z) :
  (k < n)%nat ->
  nth k (stripes j n) SHADE_A
  = if (j + Z.of_nat k) mod 2 =? 0 then SHADE_A else SHADE_B.
Proof.
  revert k j. induction n as [|n IH]; intros k j Hk; [lia|].
  destruct k as [|k]; simpl stripes; cbn [nth].
  - now rewrite Z.add_0_r.
  - rewrite IH by lia. replace (j + 1 + Z.of_nat k) with (j + Z.of_nat (S k))
      by lia. reflexivity.
Qed.

Lemma even_of_nat (k : nat) : Z.even (Z.of_nat k) = Nat.even k.
Proof.
  induction k as [|k IH]; [reflexivity|].
  rewrite Nat2Z.inj_succ, Z.even_succ, Nat.even_succ.
  now rewrite <- Z.negb_even, <- Nat.negb_even, IH.
Qed.

Lemma stripes_length (n : nat) (j : Z) : length (stripes j n) = n.
Proof. revert j. induction n; intros j; simpl; [|rewrite IHn]; reflexivity. Qed.

Section Renderer.

Variable w : World.

Lemma download_quiet (url : pystr) : quiet (download_image_to_bytes w url).
Proof. unfold download_image_to_bytes. quiet_step. Qed.

Lemma download_never_raises (url : pystr) :
  never_raises (download_image_to_bytes w url).
Proof.
  unfold download_image_to_bytes. apply never_raises_try, never_raises_ret.
Qed.

(** A logo adds no row and cannot make the drawing fail. *)
Lemma paste_logo_spec (url : option pystr) (x y size : Z) (s : State) :
  exists cmds s',
    paste_logo w url x y size s = (Return cmds, s')
    /\ row_fills cmds = []
    /\ ledger s' = ledger s
    /\ count_publish (trace s') = count_publish (trace s).
Proof.
  unfold paste_logo. destruct (truthy_opt url); simpl.
  2:{ exists [], s. now repeat split. }
  unfold bind.
  destruct (download_quiet (get_default url []) s) as [Hl Hc].
  pose proof (download_never_raises (get_default url []) s) as Hr.
  destruct (download_image_to_bytes w (get_default url []) s)
    as [[raw|] s1]; simpl in *; [|congruence].
  destruct (truthy raw); simpl.
  - exists [PasteLogo raw x y size], s1. now repeat split.
  - exists [], s1. now repeat split.
Qed.

(** A rendered row has one background, shaded by the parity of [shown]. *)
Lemma draw_row_spec (ev : game_event) (t1 t2 : competitor) (shown : Z)
    (s : State) :
  exists cmds s',
    draw_row w ev t1 t2 shown s = (Return cmds, s')
    /\ row_fills cmds = [if shown mod 2 =? 0 then SHADE_A else SHADE_B]
    /\ ledger s' = ledger s
    /\ count_publish (trace s') = count_publish (trace s).
Proof.
  unfold draw_row, bind.
  match goal with |- context [paste_logo w ?u ?x ?y ?z s] =>
    destruct (paste_logo_spec u x y z s) as [a [s1 [Ha [Hfa [Hl1 Hc1]]]]]
  end.
  rewrite Ha.
  match goal with |- context [paste_logo w ?u ?x ?y ?z s1] =>
    destruct (paste_logo_spec u x y z s1) as [h [s2 [Hh [Hfh [Hl2 Hc2]]]]]
  end.
  rewrite Hh. eexists. exists s2. split; [reflexivity|].
  split; [|split; congruence].
  cbn [app row_fills]. rewrite Z.eqb_refl.
  rewrite !row_fills_app, Hfa, Hfh. reflexivity.
Qed.

(** The loop renders the well-formed events it is given, in order, the
    first of them at position [shown]. *)
Lemma draw_rows_spec (evs : list game_event) :
  forall (shown : Z) (s : State),
  exists cmds s',
    draw_rows w evs shown s = (Return cmds, s')
    /\ row_fills cmds = stripes shown (length (filter well_formed evs))
    /\ ledger s' = ledger s
    /\ count_publish (trace s') = count_publish (trace s).
Proof.
  induction evs as [|ev rest IH]; intros shown s; cbn [draw_rows filter].
  - exists [], s. now repeat split.
  - unfold well_formed. destruct (event_teams ev) as [[t1 t2]|].
    + unfold bind.
      destruct (draw_row_spec ev t1 t2 shown s)
        as [r [s1 [Hr [Hfr [Hl1 Hc1]]]]].
      rewrite Hr.
      destruct (IH (shown + 1) s1) as [rs [s2 [Hrs [Hfrs [Hl2 Hc2]]]]].
      rewrite Hrs. exists (r ++ rs), s2. split; [reflexivity|].
      split; [|split; congruence].
      rewrite row_fills_app, Hfr, Hfrs. reflexivity.
    + apply IH.
Qed.

Lemma draw_schedule_spec (events : list game_event) (s : State) :
  exists c s',
    draw_schedule w events s = (Return c, s')
    /\ row_fills (canvas_cmds c)
       = stripes 0 (length (filter well_formed (firstn max_rows events)))
    /\ ledger s' = ledger s
    /\ count_publish (trace s') = count_publish (trace s).
Proof.
  unfold draw_schedule, bind, calls.
  destruct (draw_rows_spec (firstn max_rows events) 0 s)
    as [rows [s1 [Hr [Hf [Hl Hc]]]]].
  rewrite Hr. eexists. exists s1. split; [reflexivity|].
  split; [|now split].
  unfold schedule_canvas. cbn [canvas_cmds].
  rewrite !row_fills_app, Hf. cbn [row_fills app].
  now rewrite app_nil_r.
Qed.

Lemma build_image_frame (events : list game_event) (s : State) :
  ledger (snd (build_daily_schedule_image w events s)) = ledger s
  /\ count_publish (trace (snd (build_daily_schedule_image w events s)))
     = count_publish (trace s).
Proof.
  unfold build_daily_schedule_image, bind.
  destruct (draw_schedule_spec events s) as [c [s1 [Hd [_ [Hl Hc]]]]].
  rewrite Hd. unfold returned. destruct (png_encode w c); now split.
Qed.

End Renderer.

(** C8. The row backgrounds of the canvas are shade A, B, A, ... from the
    top, as many as there are well-formed events among those considered:
    the shade of a row is fixed by its position among the rendered rows,
    and a skipped event shifts no shade.  With the second of five events
    malformed the four rows are A, B, A, B. *)
Theorem C8_stripes_follow_rendered_position (w : World)
    (events : list game_event) (s : State) :
  (exists c s',
      draw_schedule w events s = (Return c, s')
      /\ row_fills (canvas_cmds c)
         = stripes 0 (length (filter well_formed (firstn max_rows events)))
      /\ forall k,
           (k < length (row_fills (canvas_cmds c)))%nat ->
           nth k (row_fills (canvas_cmds c)) SHADE_A
           = if Nat.even k then SHADE_A else SHADE_B)
  /\ (exists c s',
         draw_schedule w [g1; malformed_game; g2; g3; g4] s = (Return c, s')
         /\ row_fills (canvas_cmds c)
            = [SHADE_A; SHADE_B; SHADE_A; SHADE_B]).
Proof.
  split.
  - destruct (draw_schedule_spec w events s) as [c [s1 [Hd [Hf _]]]].
    exists c, s1. split; [exact Hd|]. split; [exact Hf|].
    intros k Hk. rewrite Hf in *. rewrite stripes_length in Hk.
    rewrite stripes_nth by exact Hk. rewrite Z.add_0_l.
    rewrite Zmod_even, even_of_nat. now destruct (Nat.even k).
  - destruct (draw_schedule_spec w [g1; malformed_game; g2; g3; g4] s)
      as [c [s1 [Hd [Hf _]]]].
    exists c, s1. split; [exact Hd|]. rewrite Hf. reflexivity.
Qed.

(** C10. Only the first six events are looked at.  What follows them
    changes nothing; the rows are the well-formed events among the six,
    so at most six; and seven events of which only the second is
    malformed give five rows, the seventh event never being drawn. *)
Theorem C10_window_taken_before_filtering (w : World)
    (events : list game_event) (s : State) :
  (forall extra,
      (6 <= length events)%nat ->
      draw_schedule w (events ++ extra) s = draw_schedule w events s
      /\ build_daily_schedule_image w (events ++ extra) s
         = build_daily_schedule_image w events s)
  /\ (exists c s',
         draw_schedule w events s = (Return c, s')
         /\ length (row_fills (canvas_cmds c))
            = length (filter well_formed (firstn 6 events))
         /\ (length (row_fills (canvas_cmds c)) <= 6)%nat)
  /\ (length (filter well_formed [g1; malformed_game; g2; g3; g4; g5; g6])
      = 6%nat
      /\ exists c s',
           draw_schedule w [g1; malformed_game; g2; g3; g4; g5; g6] s
           = (Return c, s')
           /\ length (row_fills (canvas_cmds c)) = 5%nat
           /\ draw_schedule w [g1; malformed_game; g2; g3; g4; g5; g6] s
              = draw_schedule w [g1; malformed_game; g2; g3; g4; g5] s).
Proof.
  split; [|split].
  - intros extra Hlen.
    assert (Hd : draw_schedule w (events ++ extra) s
                 = draw_schedule w events s).
    { unfold draw_schedule, max_rows.
      rewrite firstn_app.
      replace (6 - length events)%nat with 0%nat by lia.
      cbn [firstn]. now rewrite app_nil_r. }
    split; [exact Hd|].
    unfold build_daily_schedule_image, bind. now rewrite Hd.
  - destruct (draw_schedule_spec w events s) as [c [s1 [Hd [Hf _]]]].
    exists c, s1. split; [exact Hd|].
    rewrite Hf, stripes_length. split; [reflexivity|].
    etransitivity; [apply filter_length_le|].
    rewrite length_firstn. unfold max_rows. lia.
  - split; [reflexivity|].
    destruct (draw_schedule_spec w [g1; malformed_game; g2; g3; g4; g5; g6] s)
      as [c [s1 [Hd [Hf _]]]].
    exists c, s1. split; [exact Hd|]. split; [now rewrite Hf|reflexivity].
Qed.

Lemma C10_window_taken_before_filtering_witness :
  draw_schedule offline_world ([g1; malformed_game; g2; g3; g4; g5] ++ [g6])
    initial_state
  = draw_schedule offline_world [g1; malformed_game; g2; g3; g4; g5]
      initial_state.
Proof.
  apply (C10_window_taken_before_filtering offline_world
           [g1; malformed_game; g2; g3; g4; g5] initial_state).
  simpl. lia.
Defined.

(** ** The call to action *)

Section Composer.

Variable w : World.

Lemma fetch_scoreboard_quiet : quiet (fetch_scoreboard w).
Proof. unfold fetch_scoreboard. quiet_step. Qed.

Lemma cta_text_quiet : quiet (cta_text w).
Proof.
  unfold cta_text. destruct (CTA_INCLUDE_SCHEDULE w); [|apply quiet_ret].
  apply quiet_bind; [|intros; apply quiet_ret].
  unfold fetch_todays_games_message. apply quiet_try; [|apply quiet_ret].
  apply quiet_bind; [apply fetch_scoreboard_quiet|].
  intros [|ev evs]; apply quiet_ret.
Qed.

Lemma cta_text_never_raises : never_raises (cta_text w).
Proof.
  unfold cta_text.
  destruct (CTA_INCLUDE_SCHEDULE w); [|apply never_raises_ret].
  apply never_raises_bind; [|intros; apply never_raises_ret].
  unfold fetch_todays_games_message.
  apply never_raises_try, never_raises_ret.
Qed.

End Composer.

(** C9. [post_cta] always returns and makes exactly one publish call,
    the last thing it does: with the bytes of the schedule image when the
    scoreboard was fetched, held events and the image was rendered; with
    the text alone when the fetch raised, when there were no events and
    when rendering raised. *)
Theorem C9_cta_publishes_exactly_once (w : World) (s : State) :
  fst (post_cta w s) = Return tt
  /\ count_publish (trace (snd (post_cta w s))) = S (count_publish (trace s))
  /\ ledger (snd (post_cta w s)) = ledger s
  /\ exists msg s1,
       cta_text w s = (Return msg, s1)
       /\ match fetch_scoreboard w s1 with
          | (Raise, s2) => post_cta w s = post_to_channel w msg [] [] s2
          | (Return [], s2) => post_cta w s = post_to_channel w msg [] [] s2
          | (Return (ev :: evs), s2) =>
              match build_daily_schedule_image w (ev :: evs) s2 with
              | (Return img_bytes, s3) =>
                  post_cta w s = post_to_channel w msg [] img_bytes s3
              | (Raise, s3) =>
                  post_cta w s = post_to_channel w msg [] [] s3
              end
          end.
Proof.
  unfold post_cta, bind.
  destruct (cta_text_quiet w s) as [Hl1 Hc1].
  pose proof (cta_text_never_raises w s) as Hr1.
  destruct (cta_text w s) as [[msg|] s1]; simpl in *; [|congruence].
  unfold post_cta_image, try_except, bind.
  destruct (fetch_scoreboard_quiet w s1) as [Hl2 Hc2].
  destruct (fetch_scoreboard w s1) as [[[|ev evs]|] s2] eqn:Hf; simpl in *.
  - unfold count_publish in *. simpl.
    repeat split; try congruence.
    exists msg, s1. split; [reflexivity|]. now rewrite Hf.
  - destruct (build_image_frame w (ev :: evs) s2) as [Hl3 Hc3].
    destruct (build_daily_schedule_image w (ev :: evs) s2)
      as [[img|] s3] eqn:Hb; simpl in *.
    + unfold count_publish in *. simpl.
      repeat split; try congruence.
      exists msg, s1. split; [reflexivity|]. now rewrite Hf, Hb.
    + unfold count_publish in *. simpl.
      repeat split; try congruence.
      exists msg, s1. split; [reflexivity|]. now rewrite Hf, Hb.
  - unfold count_publish in *. simpl.
    repeat split; try congruence.
    exists msg, s1. split; [reflexivity|]. now rewrite Hf.
Qed.

(** ** End to end *)

(** One poll of a feed that delivers a news entry, an entry without
    identifiers and the news entry again: one row, one publish call, with
    the og:image of the article. *)
Example one_poll_one_record :
  map row_guid (ledger (snd (check_feeds news_world initial_state)))
  = [lit "tag:example.com,2024:1"]
  /\ count_publish (trace (snd (check_feeds news_world initial_state)))
     = 1%nat
  /\ exists c,
       In (EvPublish c true)
          (trace (snd (check_feeds news_world initial_state)))
       /\ p_image_url c = lit "https://example.com/a.png"
       /\ p_image_bytes c = [].
Proof.
  split; [reflexivity|]. split; [reflexivity|].
  eexists. split; [|split].
  - vm_compute. right. left. reflexivity.
  - reflexivity.
  - reflexivity.
Qed.

(** Polling the same feed again records and publishes nothing. *)
Example second_poll_is_silent :
  ledger (poll_cycles [news_world; news_world] initial_state)
  = ledger (poll_cycles [news_world] initial_state)
  /\ count_publish (trace (poll_cycles [news_world; news_world]
                             initial_state)) = 1%nat.
Proof. split; reflexivity. Qed.

(** The scoreboard cannot be fetched: one publish call, text only. *)
Example cta_without_scoreboard :
  exists text,
    trace (snd (post_cta offline_world initial_state))
    = [EvPublish {| p_text := text; p_image_url := []; p_image_bytes := [] |}
         false;
       EvHttpGet ESPN_SCOREBOARD_URL;
       EvHttpGet ESPN_SCOREBOARD_URL].
Proof. eexists. reflexivity. Qed.

(** The scoreboard holds games: one publish call, with the image. *)
Example cta_with_schedule_image :
  exists text rest,
    trace (snd (post_cta news_world initial_state))
    = EvPublish {| p_text := text; p_image_url := [];
                   p_image_bytes := [137; 80; 78; 71]%N |} true :: rest
    /\ count_publish rest = 0%nat.
Proof. eexists. eexists. split; reflexivity. Qed.

(** * Further properties of the program *)

(** ** Measures through the control operators *)

Lemma keeps_ret {A} (mu : State -> nat) (a : A) : keeps mu (ret a).
Proof. intros s. reflexivity. Qed.

Lemma keeps_bind {A B} (mu : State -> nat) (m : M A) (f : A -> M B) :
  keeps mu m -> (forall a, keeps mu (f a)) -> keeps mu (bind m f).
Proof.
  intros Hm Hf s. unfold bind. specialize (Hm s).
  destruct (m s) as [[a|] s1]; cbn [snd] in *; [|exact Hm].
  now rewrite Hf.
Qed.

Lemma keeps_try {A} (mu : State -> nat) (body handler : M A) :
  keeps mu body -> keeps mu handler -> keeps mu (try_except body handler).
Proof.
  intros Hb Hh s. unfold try_except. specialize (Hb s).
  destruct (body s) as [[a|] s1]; cbn [snd] in *; [exact Hb|].
  now rewrite Hh.
Qed.

Lemma keeps_returned {A} (mu : State -> nat) (o : option A) :
  keeps mu (returned o).
Proof. intros s. unfold returned. now destruct o. Qed.

Lemma keeps_calls (mu : State -> nat) : keeps mu calls.
Proof. intros s. reflexivity. Qed.

Lemma keeps_emit (p : event -> bool) (e : event) :
  p e = false -> keeps (events_of p) (emit e).
Proof.
  intros He s. unfold emit, events_of, count_events. cbn [snd trace filter].
  now rewrite He.
Qed.

Lemma adds_ret {A} (mu : State -> nat) (a : A) : adds_at_most mu (ret a) 0.
Proof. intros s. cbn [ret snd]. lia. Qed.

Lemma adds_bind {A B} (mu : State -> nat) (m : M A) (f : A -> M B)
    (a b : nat) :
  adds_at_most mu m a -> (forall x, adds_at_most mu (f x) b) ->
  adds_at_most mu (bind m f) (a + b).
Proof.
  intros Hm Hf s. unfold bind. specialize (Hm s).
  destruct (m s) as [[x|] s1]; cbn [snd] in *; [|lia].
  specialize (Hf x s1). lia.
Qed.

Lemma adds_try {A} (mu : State -> nat) (body handler : M A) (a b : nat) :
  adds_at_most mu body a -> adds_at_most mu handler b ->
  adds_at_most mu (try_except body handler) (a + b).
Proof.
  intros Hb Hh s. unfold try_except. specialize (Hb s).
  destruct (body s) as [[x|] s1]; cbn [snd] in *; [lia|].
  specialize (Hh s1). lia.
Qed.

Lemma adds_weaken {A} (mu : State -> nat) (m : M A) (a b : nat) :
  (a <= b)%nat -> adds_at_most mu m a -> adds_at_most mu m b.
Proof. intros Hab Hm s. specialize (Hm s). lia. Qed.

Lemma keeps_adds {A} (mu : State -> nat) (m : M A) :
  keeps mu m -> adds_at_most mu m 0.
Proof. intros Hm s. rewrite Hm. lia. Qed.

Lemma adds_emit (p : event -> bool) (e : event) :
  adds_at_most (events_of p) (emit e) 1.
Proof.
  intros s. unfold emit, events_of, count_events. cbn [snd trace filter].
  destruct (p e); cbn [length]; lia.
Qed.

Section Counting.

Variable w : World.
Variable p : event -> bool.

Lemma sql_was_posted_keeps (g : pystr) : keeps (events_of p) (sql_was_posted g).
Proof. intros s. reflexivity. Qed.

Lemma sql_mark_posted_keeps (f g t u d : pystr) :
  keeps (events_of p) (sql_mark_posted w f g t u d).
Proof. intros s. reflexivity. Qed.

Lemma translate_keeps (text : pystr) (limit : Z) :
  (forall t, p (EvTranslate t) = false) ->
  keeps (events_of p) (translate_to_spanish w text limit).
Proof.
  intros Hp. unfold translate_to_spanish.
  apply keeps_try; [|apply keeps_ret].
  apply keeps_bind; [apply keeps_calls|]. intros n.
  apply keeps_bind; [apply keeps_emit, Hp|]. intros _.
  apply keeps_returned.
Qed.

Lemma format_entry_keeps (fn : pystr) (e : entry) :
  (forall t, p (EvTranslate t) = false) ->
  keeps (events_of p) (format_entry w fn e).
Proof.
  intros Hp. unfold format_entry.
  apply keeps_bind; [now apply translate_keeps|]. intros t.
  apply keeps_bind; [now apply translate_keeps|]. intros x.
  apply keeps_bind; [apply keeps_returned|]. intros y. apply keeps_ret.
Qed.

Lemma og_keeps (url : pystr) :
  (forall u, p (EvHttpGet u) = false) ->
  keeps (events_of p) (fetch_opengraph_image w url).
Proof.
  intros Hp. unfold fetch_opengraph_image.
  apply keeps_try; [|apply keeps_ret].
  apply keeps_bind; [apply keeps_calls|]. intros n.
  apply keeps_bind; [apply keeps_emit, Hp|]. intros _.
  apply keeps_bind; [apply keeps_returned|]. intros body.
  destruct (og_image_content w body) as [c|]; [destruct (truthy c)|];
    apply keeps_ret.
Qed.

Lemma resolver_keeps (e : entry) :
  (forall u, p (EvHttpGet u) = false) ->
  keeps (events_of p) (get_feed_entry_image_url w e).
Proof.
  intros Hp. unfold get_feed_entry_image_url.
  destruct (media_first_url (e_media_content e)); [apply keeps_ret|].
  destruct (media_first_url (e_media_thumbnail e)); [apply keeps_ret|].
  destruct (first_image_link (e_links e)); [apply keeps_ret|].
  destruct (truthy (get_default (e_link e) [])); [|apply keeps_ret].
  apply keeps_bind; [now apply og_keeps|]. intros og.
  destruct (truthy og); apply keeps_ret.
Qed.

Lemma post_to_channel_keeps (text url : pystr) (b : bytes) :
  (forall c d, p (EvPublish c d) = false) ->
  keeps (events_of p) (post_to_channel w text url b).
Proof.
  intros Hp. unfold post_to_channel.
  apply keeps_bind; [apply keeps_calls|]. intros n. apply keeps_emit, Hp.
Qed.

Lemma publish_entry_keeps (text : pystr) (img : option pystr) :
  (forall c d, p (EvPublish c d) = false) ->
  p EvReadPlaceholder = false ->
  keeps (events_of p) (publish_entry w text img).
Proof.
  intros Hp Hr. unfold publish_entry.
  destruct (truthy_opt img); [now apply post_to_channel_keeps|].
  apply keeps_try; [|now apply post_to_channel_keeps].
  apply keeps_bind; [apply keeps_calls|]. intros n.
  apply keeps_bind; [apply keeps_emit, Hr|]. intros _.
  apply keeps_bind; [apply keeps_returned|]. intros ph.
  now apply post_to_channel_keeps.
Qed.

End Counting.

(** ** The ledger over poll cycles *)

(** What holds before every entry holds after the poll. *)
Lemma check_feeds_preserves (I : State -> Prop) (w : World) :
  (forall f s, I s -> I (snd (emit (EvFeedParse f) s))) ->
  (forall fu fn e s, I s -> I (snd (process_entry w fu fn e s))) ->
  forall s, I s -> I (snd (check_feeds w s)).
Proof.
  intros Hemit Hentry. unfold check_feeds.
  induction (RSS_FEEDS w) as [|f feeds IH]; cbn [for_each_feed].
  - intros s Hs. exact Hs.
  - apply bind_preserves; [|intros _; exact IH].
    unfold process_feed. apply try_preserves; [|intros s Hs; exact Hs].
    apply bind_preserves; [intros s Hs; exact Hs|]. intros n.
    apply bind_preserves; [apply Hemit|]. intros _.
    apply bind_preserves.
    + intros s Hs. unfold returned.
      destruct (feedparser_parse w n f); exact Hs.
    + intros fp.
      induction (firstn 8 (feed_entries fp)) as [|e es IHe];
        cbn [process_entries].
      * intros s Hs. exact Hs.
      * apply bind_preserves; [apply Hentry|intros _; exact IHe].
Qed.

Lemma poll_cycles_preserves (I : State -> Prop) :
  (forall f s, I s -> I (snd (emit (EvFeedParse f) s))) ->
  (forall w fu fn e s, I s -> I (snd (process_entry w fu fn e s))) ->
  forall ws s, I s -> I (poll_cycles ws s).
Proof.
  intros Hemit Hentry ws. induction ws as [|w ws IH]; intros s Hs; simpl.
  - exact Hs.
  - apply IH. apply check_feeds_preserves; auto.
Qed.

(** The ledger after an entry: as before, or one [mark_posted] later. *)
Lemma process_entry_ledger (w : World) (fu fn : pystr) (e : entry)
    (s : State) :
  ledger (snd (process_entry w fu fn e s)) = ledger s
  \/ exists t u p now,
       ledger (snd (process_entry w fu fn e s))
       = mark_posted fu (get_default (entry_guid e) []) t u p now (ledger s).
Proof.
  destruct (truthy_opt (entry_guid e)) eqn:Hg.
  2:{ left. now rewrite process_entry_no_guid. }
  destruct (was_posted (get_default (entry_guid e) []) (ledger s)) eqn:Hw.
  { left. now rewrite process_entry_seen. }
  destruct (process_entry_new w fu fn e s Hg Hw)
    as [[_ [_ [Hl _]]]|[text [link [now [_ [_ [Hl _]]]]]]].
  - now left.
  - right. eauto.
Qed.

Lemma poll_cycles_ledger_invariant (P : table -> Prop) :
  (forall f g t u p now db, P db -> P (mark_posted f g t u p now db)) ->
  forall ws s, P (ledger s) -> P (ledger (poll_cycles ws s)).
Proof.
  intros HP ws s Hs.
  apply (poll_cycles_preserves (fun s => P (ledger s))); [| |exact Hs].
  - intros f s0 H0. exact H0.
  - intros w fu fn e s0 H0.
    destruct (process_entry_ledger w fu fn e s0)
      as [Hl|[t [u [p [now Hl]]]]]; rewrite Hl; [exact H0|now apply HP].
Qed.

(** X1. The ledger is append-only over any number of poll cycles: rows
    are never changed, removed or reordered; and from an empty table the
    row ids are 1, 2, 3, ... in order of insertion. *)
Theorem ledger_append_only_and_numbered :
  (forall ws s, exists new, ledger (poll_cycles ws s) = ledger s ++ new)
  /\ (forall ws,
        map row_id (ledger (poll_cycles ws initial_state))
        = seq 1 (length (ledger (poll_cycles ws initial_state)))).
Proof.
  split.
  - intros ws s.
    apply (poll_cycles_ledger_invariant
             (fun db => exists new, db = ledger s ++ new)).
    + intros f g t u p now db [new Hdb]. unfold mark_posted.
      destruct (was_posted g db); [now exists new|].
      eexists. rewrite Hdb, <- app_assoc. reflexivity.
    + exists []. now rewrite app_nil_r.
  - intros ws.
    apply (poll_cycles_ledger_invariant
             (fun db => map row_id db = seq 1 (length db))).
    + intros f g t u p now db Hdb. unfold mark_posted.
      destruct (was_posted g db); [exact Hdb|].
      rewrite map_app, length_app, Hdb. cbn [map length row_id].
      replace (length db + 1)%nat with (S (length db)) by lia.
      rewrite seq_S. reflexivity.
    + reflexivity.
Qed.

(** X2. Recording one guid changes the answer of [was_posted] for no
    other guid. *)
Theorem mark_posted_other_guid (feed g g' t u p now : pystr) (db : table) :
  g' <> g ->
  was_posted g' (mark_posted feed g t u p now db) = was_posted g' db.
Proof.
  intros Hne. unfold mark_posted. destruct (was_posted g db); [reflexivity|].
  unfold was_posted. rewrite existsb_app. cbn [existsb row_guid].
  destruct (str_eqb g g') eqn:Heq.
  - apply str_eqb_eq in Heq. congruence.
  - simpl. now rewrite orb_false_r.
Qed.

Lemma mark_posted_other_guid_witness :
  was_posted (lit "tag:example.com,2024:2")
    (mark_posted (lit "https://feeds.example/nba")
       (lit "tag:example.com,2024:1") (lit "Lakers win") [] []
       (lit "2024-01-01T00:00:00") db_init)
  = was_posted (lit "tag:example.com,2024:2") db_init.
Proof.
  apply mark_posted_other_guid. discriminate.
Defined.

(** ** Polls, feed by feed *)

Section Polls.

Variable w : World.

Lemma process_entries_all_seen (fu fn : pystr) (es : list entry) (s : State) :
  (forall e, In e es ->
     truthy_opt (entry_guid e) = false
     \/ was_posted (get_default (entry_guid e) []) (ledger s) = true) ->
  process_entries w fu fn es s = (Return tt, s).
Proof.
  induction es as [|e es IH]; intros Hall; cbn [process_entries].
  - reflexivity.
  - unfold bind.
    assert (He : process_entry w fu fn e s = (Return tt, s)).
    { destruct (Hall e (or_introl eq_refl)) as [Hg|Hp].
      - now apply process_entry_no_guid.
      - now apply process_entry_seen. }
    rewrite He. apply IH. intros e' Hin. apply Hall. now right.
Qed.

(** X3. A poll of a feed whose entries (the first eight) are all in the
    ledger already, or carry no identifier, does nothing but parse the
    feed: no translation, no request, no publish call, no new row. *)
Theorem repoll_without_news_is_silent (f : pystr) (fp : parsed_feed)
    (s : State) :
  feedparser_parse w (length (trace s)) f = Some fp ->
  (forall e, In e (firstn 8 (feed_entries fp)) ->
     truthy_opt (entry_guid e) = false
     \/ was_posted (get_default (entry_guid e) []) (ledger s) = true) ->
  process_feed w f s
  = (Return tt, {| ledger := ledger s; trace := EvFeedParse f :: trace s |}).
Proof.
  intros Hfp Hall.
  unfold process_feed, try_except, bind, calls, emit, returned.
  cbn [fst snd]. rewrite Hfp.
  rewrite process_entries_all_seen; [reflexivity|exact Hall].
Qed.

Lemma format_entry_returns (fn : pystr) (e : entry) :
  (forall a b c d x, POST_TEMPLATE_format w a b c d x <> None) ->
  never_raises (format_entry w fn e).
Proof.
  intros Htpl. unfold format_entry.
  apply never_raises_bind; [apply translate_never_raises|]. intros t.
  apply never_raises_bind; [apply translate_never_raises|]. intros x.
  apply never_raises_bind; [|intros; apply never_raises_ret].
  intros s. unfold returned.
  match goal with |- context [POST_TEMPLATE_format w ?a ?b ?c ?d ?y] =>
    specialize (Htpl a b c d y);
    destruct (POST_TEMPLATE_format w a b c d y)
  end; [discriminate|congruence].
Qed.

Lemma process_entry_records (fu fn : pystr) (e : entry) (s : State) :
  (forall a b c d x, POST_TEMPLATE_format w a b c d x <> None) ->
  fst (process_entry w fu fn e s) = Return tt
  /\ (truthy_opt (entry_guid e) = true ->
      was_posted (get_default (entry_guid e) [])
        (ledger (snd (process_entry w fu fn e s))) = true).
Proof.
  intros Htpl.
  destruct (truthy_opt (entry_guid e)) eqn:Hg.
  2:{ rewrite process_entry_no_guid by assumption. split; [reflexivity|].
      discriminate. }
  destruct (was_posted (get_default (entry_guid e) []) (ledger s)) eqn:Hw.
  { rewrite process_entry_seen by assumption. now split. }
  destruct (process_entry_new w fu fn e s Hg Hw)
    as [[Hraise _]|[text [link [now [_ [Hr [Hl _]]]]]]].
  - exfalso. now apply (format_entry_returns fn e Htpl s).
  - split; [exact Hr|]. intros _. rewrite Hl. apply was_posted_after_mark.
Qed.

Lemma process_entries_keep (g fu fn : pystr) (es : list entry) :
  forall s, was_posted g (ledger s) = true ->
            was_posted g (ledger (snd (process_entries w fu fn es s))) = true.
Proof.
  induction es as [|e es IH]; cbn [process_entries].
  - intros s Hs. exact Hs.
  - apply (bind_preserves (fun s => was_posted g (ledger s) = true));
      [|intros _; exact IH].
    intros s Hs. now apply process_entry_keeps.
Qed.

(** X4. When the message template resolves for every message, the loop
    over the entries never raises and every entry that has an identifier
    is in the ledger at the end, published or not. *)
Theorem every_identifiable_entry_is_recorded (fu fn : pystr)
    (es : list entry) (s : State) :
  (forall a b c d x, POST_TEMPLATE_format w a b c d x <> None) ->
  fst (process_entries w fu fn es s) = Return tt
  /\ forall e, In e es -> truthy_opt (entry_guid e) = true ->
       was_posted (get_default (entry_guid e) [])
         (ledger (snd (process_entries w fu fn es s))) = true.
Proof.
  intros Htpl. revert s.
  induction es as [|e es IH]; intros s; cbn [process_entries].
  - split; [reflexivity|]. intros e [].
  - unfold bind.
    destruct (process_entry_records fu fn e s Htpl) as [Hr Hrec].
    destruct (process_entry w fu fn e s) as [[[]|] s1]; cbn [fst snd] in *;
      [|discriminate].
    destruct (IH s1) as [Hr' Hrec']. split; [exact Hr'|].
    intros e' [<-|Hin] Hg.
    + apply process_entries_keep. now apply Hrec.
    + now apply Hrec'.
Qed.

Lemma process_entry_adds_one (fu fn : pystr) (e : entry) :
  adds_at_most (fun s => count_publish (trace s)) (process_entry w fu fn e) 1.
Proof.
  intros s.
  destruct (truthy_opt (entry_guid e)) eqn:Hg.
  2:{ rewrite process_entry_no_guid by assumption. cbn [snd]. lia. }
  destruct (was_posted (get_default (entry_guid e) []) (ledger s)) eqn:Hw.
  { rewrite process_entry_seen by assumption. cbn [snd]. lia. }
  destruct (process_entry_new w fu fn e s Hg Hw)
    as [[_ [_ [_ Hc]]]|[text [link [now [_ [_ [_ Hc]]]]]]]; lia.
Qed.

Lemma process_entries_add (fu fn : pystr) (es : list entry) :
  adds_at_most (fun s => count_publish (trace s))
    (process_entries w fu fn es) (length es).
Proof.
  induction es as [|e es IH]; cbn [process_entries length].
  - apply adds_ret.
  - change (S (length es)) with (1 + length es)%nat.
    apply adds_bind; [apply process_entry_adds_one|intros _; exact IH].
Qed.

Lemma process_feed_adds (f : pystr) :
  adds_at_most (fun s => count_publish (trace s)) (process_feed w f) 8.
Proof.
  unfold process_feed.
  change 8%nat with ((0 + (0 + (0 + 8))) + 0)%nat.
  apply adds_try; [|apply adds_ret].
  apply adds_bind; [intros s; unfold calls; cbn [snd]; lia|]. intros n.
  apply adds_bind.
  { intros s. unfold emit. cbn [snd trace]. unfold count_publish.
    cbn [filter]. lia. }
  intros _. apply adds_bind.
  { intros s. unfold returned. destruct (feedparser_parse w n f);
      cbn [snd]; lia. }
  intros fp.
  apply (adds_weaken _ _ (length (firstn 8 (feed_entries fp))));
    [|apply process_entries_add].
  rewrite length_firstn. lia.
Qed.

(** X5. One poll makes at most eight publish calls per configured feed,
    however many entries the feeds deliver. *)
Theorem poll_publishes_at_most_eight_per_feed (s : State) :
  (count_publish (trace (snd (check_feeds w s)))
   <= count_publish (trace s) + 8 * length (RSS_FEEDS w))%nat.
Proof.
  revert s. unfold check_feeds.
  change (adds_at_most (fun s => count_publish (trace s))
            (for_each_feed w (RSS_FEEDS w)) (8 * length (RSS_FEEDS w))).
  induction (RSS_FEEDS w) as [|f feeds IH]; cbn [for_each_feed length].
  - apply adds_ret.
  - replace (8 * S (length feeds))%nat with (8 + 8 * length feeds)%nat
      by lia.
    apply adds_bind; [apply process_feed_adds|intros _; exact IH].
Qed.

End Polls.

Lemma repoll_without_news_is_silent_witness :
  process_feed news_world (lit "https://feeds.example/nba")
    (snd (check_feeds news_world initial_state))
  = (Return tt,
     {| ledger := ledger (snd (check_feeds news_world initial_state));
        trace := EvFeedParse (lit "https://feeds.example/nba")
                 :: trace (snd (check_feeds news_world initial_state)) |}).
Proof.
  apply (repoll_without_news_is_silent news_world
           (lit "https://feeds.example/nba")
           {| feed_title := Some (lit "ESPN");
              feed_entries := [entry_news; entry_anonymous; entry_news] |}).
  - reflexivity.
  - intros e [<-|[<-|[<-|[]]]]; [right|left|right]; reflexivity.
Defined.

Lemma every_identifiable_entry_is_recorded_witness :
  was_posted (lit "tag:example.com,2024:1")
    (ledger (snd (process_entries offline_world
                    (lit "https://feeds.example/nba") (lit "ESPN")
                    [entry_anonymous; entry_news] initial_state))) = true.
Proof.
  refine (proj2 (every_identifiable_entry_is_recorded offline_world
                   (lit "https://feeds.example/nba") (lit "ESPN")
                   [entry_anonymous; entry_news] initial_state _)
            entry_news _ _).
  - intros a b c d x. discriminate.
  - right. left. reflexivity.
  - reflexivity.
Defined.

(** ** What a poll adds to the trace *)

Section PollTrace.

Variable w : World.

Lemma process_entry_keeps_events (p : event -> bool) (fu fn : pystr)
    (e : entry) :
  (forall t, p (EvTranslate t) = false) ->
  (forall u, p (EvHttpGet u) = false) ->
  (forall c d, p (EvPublish c d) = false) ->
  p EvReadPlaceholder = false ->
  p (EvSleep 2) = false ->
  keeps (events_of p) (process_entry w fu fn e).
Proof.
  intros Ht Hh Hp Hr Hs. unfold process_entry.
  destruct (negb (truthy_opt (entry_guid e))); [apply keeps_ret|].
  apply keeps_bind; [apply sql_was_posted_keeps|]. intros [|];
    [apply keeps_ret|].
  apply keeps_bind; [now apply format_entry_keeps|]. intros tl.
  apply keeps_bind; [now apply resolver_keeps|]. intros img.
  apply keeps_bind; [now apply publish_entry_keeps|]. intros _.
  apply keeps_bind; [apply sql_mark_posted_keeps|]. intros _.
  now apply keeps_emit.
Qed.

Lemma process_entries_keeps_events (p : event -> bool) (fu fn : pystr)
    (es : list entry) :
  (forall t, p (EvTranslate t) = false) ->
  (forall u, p (EvHttpGet u) = false) ->
  (forall c d, p (EvPublish c d) = false) ->
  p EvReadPlaceholder = false ->
  p (EvSleep 2) = false ->
  keeps (events_of p) (process_entries w fu fn es).
Proof.
  intros Ht Hh Hp Hr Hs.
  induction es as [|e es IH]; cbn [process_entries].
  - apply keeps_ret.
  - apply keeps_bind; [now apply process_entry_keeps_events|].
    intros _. exact IH.
Qed.

Lemma process_feed_parses (g f : pystr) (s : State) :
  events_of (is_parse_of g) (snd (process_feed w f s))
  = (events_of (is_parse_of g) s + (if str_eqb f g then 1 else 0))%nat.
Proof.
  unfold process_feed, try_except, bind, calls, emit, returned.
  cbn [fst snd].
  set (s0 := {| ledger := ledger s; trace := EvFeedParse f :: trace s |}).
  assert (H0 : events_of (is_parse_of g) s0
               = (events_of (is_parse_of g) s
                  + (if str_eqb f g then 1 else 0))%nat).
  { unfold s0, events_of, count_events. cbn [trace filter is_parse_of].
    destruct (str_eqb f g); cbn [length]; lia. }
  destruct (feedparser_parse w (length (trace s)) f) as [fp|];
    [|cbn [snd]; exact H0].
  pose proof (process_entries_keeps_events (is_parse_of g) f
                (get_default (feed_title fp) f)
                (firstn 8 (feed_entries fp))
                (fun _ => eq_refl) (fun _ => eq_refl)
                (fun _ _ => eq_refl) eq_refl eq_refl s0) as Hk.
  destruct (process_entries w f (get_default (feed_title fp) f)
              (firstn 8 (feed_entries fp)) s0) as [[[]|] s1];
    cbn [snd ret] in *; congruence.
Qed.

(** X6. A poll always returns, and parses every configured feed, each as
    often as it is listed: a parser that raises or a message that cannot
    be formatted ends the work on that feed only. *)
Theorem every_feed_is_parsed_in_every_poll (g : pystr) (s : State) :
  fst (check_feeds w s) = Return tt
  /\ events_of (is_parse_of g) (snd (check_feeds w s))
     = (events_of (is_parse_of g) s
        + length (filter (fun f => str_eqb f g) (RSS_FEEDS w)))%nat.
Proof.
  unfold check_feeds. split; [apply for_each_feed_returns|].
  revert s. induction (RSS_FEEDS w) as [|f feeds IH]; intros s;
    cbn [for_each_feed filter].
  - cbn [ret snd length]. lia.
  - unfold bind. pose proof (process_feed_parses g f s) as Hf.
    pose proof (process_feed_never_raises w f s) as Hr.
    destruct (process_feed w f s) as [[[]|] s1]; cbn [fst snd] in *;
      [|congruence].
    rewrite IH, Hf. destruct (str_eqb f g); cbn [length]; lia.
Qed.

(** The pacing delay and the publish calls, entry by entry. *)
Lemma process_entry_paces (fu fn : pystr) (e : entry) (s : State) :
  events_of is_sleep s = count_publish (trace s) ->
  events_of is_sleep (snd (process_entry w fu fn e s))
  = count_publish (trace (snd (process_entry w fu fn e s))).
Proof.
  intros Hs.
  destruct (truthy_opt (entry_guid e)) eqn:Hg.
  2:{ now rewrite process_entry_no_guid. }
  destruct (was_posted (get_default (entry_guid e) []) (ledger s)) eqn:Hw.
  { now rewrite process_entry_seen. }
  unfold process_entry, bind, sql_was_posted, sql_mark_posted, emit.
  rewrite Hg. simpl. rewrite Hw.
  destruct (format_entry_quiet w fn e s) as [_ Hc1].
  pose proof (format_entry_keeps w is_sleep fn e (fun _ => eq_refl) s)
    as Hk1.
  destruct (format_entry w fn e s) as [[[text link]|] s1]; simpl in *;
    [|congruence].
  destruct (resolver_quiet w e s1) as [_ Hc2].
  pose proof (resolver_keeps w is_sleep e (fun _ => eq_refl) s1) as Hk2.
  destruct (get_feed_entry_image_url w e s1) as [[img|] s2]; simpl in *;
    [|congruence].
  destruct (publish_entry_once w text img s2) as [Hp [_ Hc3]].
  pose proof (publish_entry_keeps w is_sleep text img
                (fun _ _ => eq_refl) eq_refl s2) as Hk3.
  destruct (publish_entry w text img s2) as [[[]|] s3]; simpl in *;
    [|discriminate].
  unfold events_of, count_events, count_publish in *. simpl. congruence.
Qed.

End PollTrace.

(** X7. The ingestion loop sleeps once after every publish call it makes:
    over any poll cycles the pacing delays in the trace are as many as the
    publish calls. *)
Theorem one_pacing_delay_per_publish (ws : list World) :
  events_of is_sleep (poll_cycles ws initial_state)
  = count_publish (trace (poll_cycles ws initial_state)).
Proof.
  apply (poll_cycles_preserves
           (fun s => events_of is_sleep s = count_publish (trace s))).
  - intros f s Hs. exact Hs.
  - intros w fu fn e s. apply process_entry_paces.
  - reflexivity.
Qed.

(** ** White space *)

Lemma lstrip_suffix (s : pystr) : exists p, s = p ++ lstrip s.
Proof.
  induction s as [|c r [p Hp]]; [now exists []|]. cbn [lstrip].
  destruct (is_space c).
  - exists (c :: p). cbn [app]. now rewrite <- Hp.
  - now exists [].
Qed.

Lemma lstrip_head (s : pystr) (c : N) :
  hd_error (lstrip s) = Some c -> is_space c = false.
Proof.
  induction s as [|a r IH]; cbn [lstrip]; [discriminate|].
  destruct (is_space a) eqn:Ha; [exact IH|].
  cbn [hd_error]. intros H. now inversion H; subst.
Qed.

(** [strip] cuts white space off both ends and nothing else. *)
Lemma strip_infix (s : pystr) : exists p q, s = p ++ strip s ++ q.
Proof.
  unfold strip. destruct (lstrip_suffix s) as [p Hp].
  destruct (lstrip_suffix (rev (lstrip s))) as [q Hq].
  exists p, (rev q). rewrite <- rev_app_distr, <- Hq, rev_involutive.
  exact Hp.
Qed.

Lemma strip_trimmed (s : pystr) : trimmed (strip s).
Proof.
  split; intros c Hc.
  - destruct (strip_infix s) as [p [q Hpq]]. unfold strip in *.
    destruct (lstrip_suffix (rev (lstrip s))) as [q' Hq'].
    apply (f_equal (@rev N)) in Hq'.
    rewrite rev_involutive, rev_app_distr in Hq'.
    destruct (rev (lstrip (rev (lstrip s)))) as [|a l]; [discriminate|].
    cbn [hd_error] in Hc. inversion Hc; subst a.
    apply (lstrip_head s). rewrite Hq'. reflexivity.
  - unfold strip in Hc. rewrite rev_involutive in Hc.
    now apply (lstrip_head (rev (lstrip s))).
Qed.

Lemma single_spaced_sub_spaces (b : bool) (s : pystr) :
  single_spaced b (sub_spaces b s) = true.
Proof.
  revert b. induction s as [|c r IH]; intros b; cbn [sub_spaces];
    [reflexivity|].
  destruct (is_space c) eqn:Hc.
  - destruct b; [apply IH|].
    cbn [single_spaced]. change (is_space SPACE) with true.
    cbv iota. rewrite N.eqb_refl. cbn [negb andb]. apply IH.
  - cbn [single_spaced]. rewrite Hc. apply IH.
Qed.

Lemma single_spaced_weaken (b : bool) (s : pystr) :
  single_spaced b s = true -> single_spaced false s = true.
Proof.
  destruct b; [|trivial]. destruct s as [|c r]; [trivial|].
  cbn [single_spaced]. destruct (is_space c); [|trivial].
  rewrite andb_false_r. discriminate.
Qed.

Lemma single_spaced_app_r (b : bool) (p q : pystr) :
  single_spaced b (p ++ q) = true -> single_spaced false q = true.
Proof.
  revert b. induction p as [|c p IH]; intros b; cbn [app].
  - apply single_spaced_weaken.
  - cbn [single_spaced]. destruct (is_space c); [|apply IH].
    intros H. apply andb_prop in H. destruct H as [_ H]. now apply IH in H.
Qed.

Lemma single_spaced_app_l (b : bool) (p q : pystr) :
  single_spaced b (p ++ q) = true -> single_spaced b p = true.
Proof.
  revert b. induction p as [|c p IH]; intros b; cbn [app];
    [reflexivity|].
  cbn [single_spaced]. destruct (is_space c); [|apply IH].
  intros H. apply andb_prop in H. destruct H as [H1 H2].
  rewrite H1. now apply IH.
Qed.

Lemma single_spaced_strip (s : pystr) :
  single_spaced false s = true -> single_spaced false (strip s) = true.
Proof.
  intros Hs. destruct (strip_infix s) as [p [q Hpq]]. rewrite Hpq in Hs.
  apply single_spaced_app_r in Hs. now apply single_spaced_app_l in Hs.
Qed.

Lemma single_spaced_only_spaces (b : bool) (s : pystr) (c : N) :
  single_spaced b s = true -> In c s -> is_space c = true -> c = SPACE.
Proof.
  revert b. induction s as [|a r IH]; intros b Hs Hin Hc; [destruct Hin|].
  cbn [single_spaced] in Hs. destruct Hin as [->|Hin].
  - rewrite Hc in Hs. apply andb_prop in Hs. destruct Hs as [Hs _].
    apply andb_prop in Hs. destruct Hs as [Hs _]. now apply N.eqb_eq.
  - destruct (is_space a).
    + apply andb_prop in Hs. destruct Hs as [_ Hs]. now apply (IH true).
    + now apply (IH false).
Qed.

Lemma single_spaced_no_double (b : bool) (p q : pystr) :
  single_spaced b (p ++ SPACE :: SPACE :: q) = false.
Proof.
  destruct (single_spaced b (p ++ SPACE :: SPACE :: q)) eqn:H;
    [|reflexivity].
  apply single_spaced_app_r in H. cbn in H. discriminate.
Qed.

(** X10. The cleaned text of an excerpt holds no white space but single
    spaces between words: no tab, line break or no-break space, no two
    spaces in a row, none at either end, whatever the markup was. *)
Theorem clean_text_is_single_spaced (w : World) (raw : pystr) :
  (forall c, In c (clean_text w raw) -> is_space c = true -> c = SPACE)
  /\ (forall p q, clean_text w raw <> p ++ SPACE :: SPACE :: q)
  /\ trimmed (clean_text w raw).
Proof.
  assert (Hs : single_spaced false (clean_text w raw) = true).
  { unfold clean_text. apply single_spaced_strip, single_spaced_sub_spaces. }
  split; [|split].
  - intros c. now apply (single_spaced_only_spaces false).
  - intros p q Heq. rewrite Heq, single_spaced_no_double in Hs. discriminate.
  - unfold clean_text. apply strip_trimmed.
Qed.

(** ** The length and the cut of an excerpt *)

Lemma rsplit_space_head_length (s : pystr) :
  (length (rsplit_space_head s) <= length s)%nat.
Proof.
  unfold rsplit_space_head. destruct (before_last_space s) as [h|] eqn:Hs;
    [|lia].
  destruct (before_last_space_spec s h Hs) as [t [Ht _]].
  rewrite Ht, length_app. lia.
Qed.

Lemma truncate_excerpt_length (text : pystr) (max_chars : Z) :
  0 <= max_chars -> len (truncate_excerpt text max_chars) <= max_chars + 1.
Proof.
  intros Hmax. unfold truncate_excerpt.
  destruct (Z.ltb_spec max_chars (len text)) as [Hlt|Hge]; [|lia].
  unfold slice_to. destruct (Z.leb_spec 0 max_chars); [|lia].
  unfold len. rewrite length_app. cbn [length].
  pose proof (rsplit_space_head_length (firstn (Z.to_nat max_chars) text))
    as Hr.
  rewrite length_firstn in Hr. lia.
Qed.

(** X11. An excerpt holds at most [max_chars] characters and the ellipsis:
    never more than [max_chars + 1]. *)
Theorem excerpt_length_bound (w : World) (e : entry) (max_chars : Z) :
  0 <= max_chars ->
  len (extract_excerpt w e max_chars) <= max_chars + 1.
Proof. intros Hmax. now apply truncate_excerpt_length. Qed.

Lemma excerpt_length_bound_witness :
  len (extract_excerpt offline_world entry_long_word 350) <= 350 + 1.
Proof. apply excerpt_length_bound. lia. Defined.

(** X12. When the first [max_chars] characters of a longer cleaned text
    hold a space, the excerpt ends at the last of these spaces: what is
    kept is followed by that space in the text, and no space follows in
    the rest of the window, so no word is cut. *)
Theorem excerpt_cut_at_last_space (w : World) (e : entry) (max_chars : Z) :
  0 <= max_chars < len (clean_text w (excerpt_raw e)) ->
  In SPACE (firstn (Z.to_nat max_chars) (clean_text w (excerpt_raw e))) ->
  exists kept tail,
    firstn (Z.to_nat max_chars) (clean_text w (excerpt_raw e))
    = kept ++ SPACE :: tail
    /\ ~ In SPACE tail
    /\ extract_excerpt w e max_chars = kept ++ [ELLIPSIS].
Proof.
  intros Hlen Hin. unfold extract_excerpt.
  set (text := clean_text w (excerpt_raw e)) in *.
  destruct (before_last_space (firstn (Z.to_nat max_chars) text))
    as [h|] eqn:Hs.
  - destruct (before_last_space_spec _ _ Hs) as [t [Ht Hn]].
    exists h, t. split; [exact Ht|]. split.
    + now apply before_last_space_none.
    + now apply (truncate_at_space text h max_chars).
  - apply before_last_space_none in Hs. contradiction.
Qed.

Lemma excerpt_cut_at_last_space_witness :
  exists kept tail,
    firstn (Z.to_nat 12) (clean_text offline_world (excerpt_raw entry_news))
    = kept ++ SPACE :: tail
    /\ ~ In SPACE tail
    /\ extract_excerpt offline_world entry_news 12 = kept ++ [ELLIPSIS].
Proof.
  apply excerpt_cut_at_last_space.
  - split; [discriminate|reflexivity].
  - vm_compute. tauto.
Defined.

(** ** Lists of the environment *)

Example env_list_of_feeds :
  env_list 44 (lit " https://a.example/rss ,, https://b.example/rss,")
  = [lit "https://a.example/rss"; lit "https://b.example/rss"]
  /\ env_list 44 [] = []
  /\ split_on 44 (lit "a,,b") = [lit "a"; []; lit "b"].
Proof. repeat split. Qed.

Lemma split_on_nonempty (sep : N) (s : pystr) : split_on sep s <> [].
Proof.
  destruct s as [|c r]; cbn [split_on]; [discriminate|].
  destruct (c =? sep)%N; [discriminate|].
  destruct (split_on sep r); discriminate.
Qed.

Lemma split_on_no_separator (sep : N) (s piece : pystr) :
  In piece (split_on sep s) -> ~ In sep piece.
Proof.
  revert piece. induction s as [|c r IH]; intros piece; cbn [split_on].
  - intros [<-|[]] [].
  - destruct (N.eqb_spec c sep) as [->|Hc].
    + intros [<-|Hin]; [intros []|now apply IH].
    + destruct (split_on sep r) as [|first rest] eqn:Hsp.
      * intros [<-|[]] [H|[]]. congruence.
      * intros [<-|Hin].
        -- intros [H|H]; [congruence|]. apply (IH first); [now left|exact H].
        -- apply IH. now right.
Qed.

(** X13. Every item of a list read from the environment ([RSS_FEEDS],
    [CTA_CRONS]) is non-empty, holds no separator and has no white space
    at either end; blank items between separators are dropped. *)
Theorem env_list_items_are_clean (sep : N) (value item : pystr) :
  In item (env_list sep value) ->
  truthy item = true /\ ~ In sep item /\ trimmed item.
Proof.
  unfold env_list. intros Hin. apply filter_In in Hin.
  destruct Hin as [Hin Ht]. apply in_map_iff in Hin.
  destruct Hin as [piece [<- Hp]]. split; [exact Ht|]. split.
  - intros Hs. apply (split_on_no_separator sep value piece Hp).
    destruct (strip_infix piece) as [a [b Hab]]. rewrite Hab.
    apply in_or_app. right. apply in_or_app. now left.
  - apply strip_trimmed.
Qed.

Lemma env_list_items_are_clean_witness :
  truthy (lit "https://b.example/rss") = true
  /\ ~ In 44%N (lit "https://b.example/rss")
  /\ trimmed (lit "https://b.example/rss").
Proof.
  apply (env_list_items_are_clean 44
           (lit "https://a.example/rss, ,https://b.example/rss ,")).
  vm_compute. right. left. reflexivity.
Defined.

Example excerpt_of_news :
  extract_excerpt offline_world entry_news 12 = lit "Lakers beat" ++ [ELLIPSIS]
  /\ extract_excerpt offline_world entry_news 350 = lit "Lakers beat Celtics".
Proof. split; reflexivity. Qed.

(** ** Escapes of the call to action *)

Lemma has_escape_cons (x a : N) (t : pystr) :
  has_escape x (a :: t)
  = match t with
    | b :: _ => ((a =? 92) && (b =? x))%N || has_escape x t
    | [] => false
    end.
Proof. reflexivity. Qed.

Lemma replace_escape_cons (x y a : N) (t : pystr) :
  replace_escape x y (a :: t)
  = match t with
    | b :: r =>
        if ((a =? 92) && (b =? x))%N then y :: replace_escape x y r
        else a :: replace_escape x y t
    | [] => [a]
    end.
Proof. reflexivity. Qed.

(** The first character of a replaced string is the replacement or the
    first character it had. *)
Lemma replace_escape_head (x y b : N) (r : pystr) :
  hd_error (replace_escape x y (b :: r)) = Some y
  \/ hd_error (replace_escape x y (b :: r)) = Some b.
Proof.
  rewrite replace_escape_cons. destruct r as [|c r']; [now right|].
  destruct ((b =? 92) && (c =? x))%N; [now left|now right].
Qed.

(** After the replacement of an escape none is left, and an escape that
    was absent before is absent after. *)
Lemma replace_escape_clears (x y z : N) (n : nat) :
  y <> 92%N -> y <> z ->
  forall s, (length s <= n)%nat ->
    (z = x \/ has_escape z s = false) ->
    has_escape z (replace_escape x y s) = false.
Proof.
  intros Hy Hyz. induction n as [|n IH]; intros s Hn Hz.
  - destruct s; [reflexivity|cbn [length] in Hn; lia].
  - destruct s as [|a t]; [reflexivity|]. cbn [length] in Hn.
    rewrite replace_escape_cons. destruct t as [|b r]; [reflexivity|].
    cbn [length] in Hn.
    assert (Ht : z = x \/ has_escape z (b :: r) = false).
    { destruct Hz as [Hz|Hz]; [now left|right].
      rewrite has_escape_cons in Hz. now apply orb_false_elim in Hz. }
    assert (Hr : z = x \/ has_escape z r = false).
    { destruct Ht as [Ht|Ht]; [now left|right].
      destruct r as [|c r']; [reflexivity|].
      rewrite has_escape_cons in Ht. now apply orb_false_elim in Ht. }
    destruct ((a =? 92) && (b =? x))%N eqn:Hab.
    + rewrite has_escape_cons.
      destruct (replace_escape x y r) as [|c out] eqn:Hout; [reflexivity|].
      rewrite <- Hout, IH by (assumption || lia).
      destruct (N.eqb_spec y 92); [contradiction|reflexivity].
    + rewrite has_escape_cons.
      destruct (replace_escape x y (b :: r)) as [|c out] eqn:Hout;
        [reflexivity|].
      rewrite <- Hout, IH by (assumption || (cbn [length]; lia)).
      rewrite orb_false_r.
      destruct (N.eqb_spec a 92) as [->|]; [|reflexivity]. cbn [andb].
      apply N.eqb_neq. intros ->.
      destruct (replace_escape_head x y b r) as [Hh|Hh];
        rewrite Hout in Hh; cbn [hd_error] in Hh; inversion Hh; subst.
      * contradiction.
      * destruct Hz as [->|Hz].
        -- rewrite !N.eqb_refl in Hab. discriminate.
        -- rewrite has_escape_cons in Hz. apply orb_false_elim in Hz.
           destruct Hz as [Hz _]. rewrite !N.eqb_refl in Hz. discriminate.
Qed.

Lemma has_escape_app_r (z : N) (p q : pystr) :
  has_escape z (p ++ q) = false -> has_escape z q = false.
Proof.
  induction p as [|a p IH]; cbn [app]; [trivial|].
  rewrite has_escape_cons. destruct (p ++ q) as [|b t] eqn:Hpq.
  - destruct p; [cbn [app] in Hpq; now subst|discriminate].
  - intros H. apply orb_false_elim in H. now apply IH.
Qed.

Lemma has_escape_app_l (z : N) (p q : pystr) :
  has_escape z (p ++ q) = false -> has_escape z p = false.
Proof.
  induction p as [|a p IH]; cbn [app]; [reflexivity|].
  rewrite !has_escape_cons. destruct p as [|b p'].
  - reflexivity.
  - cbn [app]. intros H. apply orb_false_elim in H. destruct H as [H1 H2].
    rewrite H1. now apply IH.
Qed.

(** X14. A normalized message holds no literal backslash-n and no literal
    backslash-t any more, and no white space at either end. *)
Theorem normalize_message_leaves_no_escape (s : pystr) :
  has_escape 110 (normalize_message s) = false
  /\ has_escape 116 (normalize_message s) = false
  /\ trimmed (normalize_message s).
Proof.
  unfold normalize_message.
  set (a := replace_escape 110 10 s).
  assert (Ha : has_escape 110 a = false).
  { apply (replace_escape_clears 110 10 110 (length s));
      [discriminate|discriminate|lia|now left]. }
  assert (Hb : has_escape 110 (replace_escape 116 9 a) = false).
  { apply (replace_escape_clears 116 9 110 (length a));
      [discriminate|discriminate|lia|now right]. }
  assert (Hc : has_escape 116 (replace_escape 116 9 a) = false).
  { apply (replace_escape_clears 116 9 116 (length a));
      [discriminate|discriminate|lia|now left]. }
  destruct (strip_infix (replace_escape 116 9 a)) as [p [q Hpq]].
  rewrite Hpq in Hb, Hc.
  split; [|split].
  - now apply has_escape_app_r, has_escape_app_l in Hb.
  - now apply has_escape_app_r, has_escape_app_l in Hc.
  - apply strip_trimmed.
Qed.

(** ** The page of an article *)

Lemma og_state (w : World) (url : pystr) (s : State) :
  exists og,
    fetch_opengraph_image w url s
    = (Return og,
       {| ledger := ledger s; trace := EvHttpGet url :: trace s |}).
Proof.
  unfold fetch_opengraph_image, try_except, bind, calls, emit, returned.
  cbn [fst snd].
  destruct (requests_get w (length (trace s)) url) as [body|];
    [|eexists; reflexivity].
  destruct (og_image_content w body) as [c|]; [destruct (truthy c)|];
    eexists; reflexivity.
Qed.

(** X15. [fetch_opengraph_image] never raises and makes exactly one
    request, to the article; its answer has no white space at either end,
    and it is empty when the request fails or the page has no og:image. *)
Theorem og_image_is_trimmed_or_empty (w : World) (url : pystr) (s : State) :
  exists og,
    fetch_opengraph_image w url s
    = (Return og,
       {| ledger := ledger s; trace := EvHttpGet url :: trace s |})
    /\ trimmed og
    /\ (requests_get w (length (trace s)) url = None -> og = [])
    /\ (forall body, requests_get w (length (trace s)) url = Some body ->
        og_image_content w body = None -> og = []).
Proof.
  unfold fetch_opengraph_image, try_except, bind, calls, emit, returned.
  cbn [fst snd].
  assert (Hnil : trimmed []) by (split; intros c H; discriminate H).
  destruct (requests_get w (length (trace s)) url) as [body|].
  - destruct (og_image_content w body) as [c|] eqn:Hc.
    + destruct (truthy c).
      * exists (strip c). split; [reflexivity|].
        split; [apply strip_trimmed|]. split; [discriminate|].
        intros b Hb Hn. inversion Hb; subst. congruence.
      * exists []. split; [reflexivity|]. split; [exact Hnil|].
        split; reflexivity.
    + exists []. split; [reflexivity|]. split; [exact Hnil|].
      split; reflexivity.
  - exists []. split; [reflexivity|]. split; [exact Hnil|].
    split; [reflexivity|discriminate].
Qed.

(** ** The tiers of the resolver *)

(** X16. The resolver never raises and requests at most one page, the
    article, and that only when the entry has neither a media URL nor an
    image enclosure or preview link. *)
Theorem resolver_requests_the_article_at_most (w : World) (e : entry)
    (s : State) :
  fst (get_feed_entry_image_url w e s) <> Raise
  /\ ledger (snd (get_feed_entry_image_url w e s)) = ledger s
  /\ (trace (snd (get_feed_entry_image_url w e s)) = trace s
      \/ exists article,
           e_link e = Some article
           /\ media_first_url (e_media_content e) = None
           /\ media_first_url (e_media_thumbnail e) = None
           /\ first_image_link (e_links e) = None
           /\ trace (snd (get_feed_entry_image_url w e s))
              = EvHttpGet article :: trace s).
Proof.
  split; [apply resolver_never_raises|].
  split; [apply resolver_quiet|].
  unfold get_feed_entry_image_url.
  destruct (media_first_url (e_media_content e)); [now left|].
  destruct (media_first_url (e_media_thumbnail e)); [now left|].
  destruct (first_image_link (e_links e)); [now left|].
  destruct (e_link e) as [article|]; cbn [get_default]; [|now left].
  destruct (truthy article); [|now left].
  right. exists article. repeat split. unfold bind.
  destruct (og_state w article s) as [og Hog].
  rewrite Hog. destruct (truthy og); reflexivity.
Qed.

(** X17. First success wins, tier by tier: a media URL is returned without
    a look at links or article; without one, the href of the first image
    enclosure or preview link is, if it has one; and without either the
    og:image of the article is, the empty string when there is no article
    link or no image on its page. *)
Theorem resolver_first_success_wins (w : World) (e : entry) (s : State) :
  (forall url,
      media_first_url (e_media_content e) = Some url
      \/ (media_first_url (e_media_content e) = None
          /\ media_first_url (e_media_thumbnail e) = Some url) ->
      get_feed_entry_image_url w e s = (Return (Some url), s))
  /\ (forall href,
         media_first_url (e_media_content e) = None ->
         media_first_url (e_media_thumbnail e) = None ->
         first_image_link (e_links e) = Some (Some href) ->
         get_feed_entry_image_url w e s = (Return (Some href), s))
  /\ (forall article og s1,
         media_first_url (e_media_content e) = None ->
         media_first_url (e_media_thumbnail e) = None ->
         first_image_link (e_links e) = None ->
         e_link e = Some article -> truthy article = true ->
         fetch_opengraph_image w article s = (Return og, s1) ->
         get_feed_entry_image_url w e s = (Return (Some og), s1))
  /\ (media_first_url (e_media_content e) = None ->
      media_first_url (e_media_thumbnail e) = None ->
      first_image_link (e_links e) = None ->
      truthy_opt (e_link e) = false ->
      get_feed_entry_image_url w e s = (Return (Some []), s)).
Proof.
  split; [|split; [|split]].
  - intros url. apply resolver_media_wins.
  - intros href. apply resolver_enclosure_wins.
  - intros article og s1. apply resolver_falls_to_og.
  - apply resolver_nothing_found.
Qed.

Lemma resolver_first_success_wins_witness :
  get_feed_entry_image_url og_world entry_news initial_state
  = (Return (Some (lit "https://example.com/a.png")),
     {| ledger := [];
        trace := [EvHttpGet (lit "https://example.com/a")] |}).
Proof.
  refine (proj1 (proj2 (proj2
    (resolver_first_success_wins og_world entry_news initial_state)))
    (lit "https://example.com/a") _ _ _ _ _ _ _ _); reflexivity.
Defined.

(** ** The translations of a message *)

Lemma translate_state (w : World) (text : pystr) (limit : Z) (s : State) :
  exists translated,
    translate_to_spanish w text limit s
    = (Return translated,
       {| ledger := ledger s;
          trace :=
            EvTranslate (if (limit =? 0) || (len text <=? limit) then text
                         else slice_to limit text) :: trace s |}).
Proof.
  unfold translate_to_spanish, try_except, bind, calls, emit, returned.
  cbn [fst snd].
  destruct (translator_translate w (length (trace s))
              (if (limit =? 0) || (len text <=? limit) then text
               else slice_to limit text)); eexists; reflexivity.
Qed.

(** X18. Formatting an entry calls the translator exactly twice: first
    with the title, cut to 200 characters, then with the whole excerpt,
    which its own limit of 350 keeps below the 1000 allowed here. *)
Theorem format_entry_translates_title_then_excerpt (w : World)
    (fn : pystr) (e : entry) (s : State) :
  trace (snd (format_entry w fn e s))
  = EvTranslate (extract_excerpt w e 350)
    :: EvTranslate (firstn 200 (get_default (e_title e) NO_TITLE))
    :: trace s.
Proof.
  unfold format_entry, bind.
  destruct (translate_state w (get_default (e_title e) NO_TITLE) 200 s)
    as [title_es Ht].
  rewrite Ht.
  match goal with |- context [translate_to_spanish w ?x 1000 ?s1] =>
    destruct (translate_state w x 1000 s1) as [excerpt_es Hx]
  end.
  rewrite Hx. unfold returned.
  assert (Hcut : (if (200 =? 0) || (len (get_default (e_title e) NO_TITLE)
                                      <=? 200)
                  then get_default (e_title e) NO_TITLE
                  else slice_to 200 (get_default (e_title e) NO_TITLE))
                 = firstn 200 (get_default (e_title e) NO_TITLE)).
  { cbn [Z.eqb orb].
    destruct (Z.leb_spec (len (get_default (e_title e) NO_TITLE)) 200)
      as [Hle|Hgt]; [|reflexivity].
    symmetry. apply firstn_all2. unfold len in Hle. lia. }
  assert (Hall : (if (1000 =? 0) || (len (extract_excerpt w e 350) <=? 1000)
                  then extract_excerpt w e 350
                  else slice_to 1000 (extract_excerpt w e 350))
                 = extract_excerpt w e 350).
  { cbn [Z.eqb orb].
    assert (Hb : len (extract_excerpt w e 350) <= 350 + 1)
      by (apply truncate_excerpt_length; lia).
    destruct (Z.leb_spec (len (extract_excerpt w e 350)) 1000);
      [reflexivity|lia]. }
  match goal with |- context [POST_TEMPLATE_format w ?a ?b ?c ?d ?x] =>
    destruct (POST_TEMPLATE_format w a b c d x)
  end; cbn [snd trace]; now rewrite Hall, Hcut.
Qed.

(** ** The layout of the schedule image *)

Lemma row_boxes_app (a b : list draw_cmd) :
  row_boxes (a ++ b) = row_boxes a ++ row_boxes b.
Proof.
  induction a as [|c a IH]; cbn [app row_boxes]; [reflexivity|].
  destruct c; try exact IH.
  destruct (radius =? ROW_RADIUS); cbn [app]; now rewrite IH.
Qed.

Lemma row_slots_length (n : nat) (j : Z) : length (row_slots j n) = n.
Proof.
  revert j. induction n as [|n IH]; intros j; cbn [row_slots length];
    [|rewrite IH]; reflexivity.
Qed.

Lemma row_slots_In (n : nat) (j top bottom : Z) :
  In (top, bottom) (row_slots j n) ->
  exists k, j <= k < j + Z.of_nat n
            /\ top = 190 + k * 150 /\ bottom = top + 138.
Proof.
  revert j. induction n as [|n IH]; intros j; cbn [row_slots];
    [intros []|].
  intros [Heq|Hin].
  - inversion Heq; subst. exists j. repeat split; lia.
  - destruct (IH (j + 1) Hin) as [k [Hk [Ht Hb]]].
    exists k. repeat split; try assumption; lia.
Qed.

Section Layout.

Variable w : World.

Lemma download_state (url : pystr) (s : State) :
  exists raw,
    download_image_to_bytes w url s
    = (Return raw,
       {| ledger := ledger s; trace := EvHttpGet url :: trace s |}).
Proof.
  unfold download_image_to_bytes, try_except, bind, calls, emit, returned.
  cbn [fst snd].
  destruct (requests_get w (length (trace s)) url); eexists; reflexivity.
Qed.

(** A logo is one paste at most, after one request at most. *)
Lemma paste_logo_shape (url : option pystr) (x y size : Z) (s : State) :
  exists cmds s',
    paste_logo w url x y size s = (Return cmds, s')
    /\ row_boxes cmds = []
    /\ (events_of is_http_get s' <= events_of is_http_get s + 1)%nat.
Proof.
  unfold paste_logo. destruct (truthy_opt url); cbn [negb].
  2:{ exists [], s. repeat split. lia. }
  unfold bind.
  destruct (download_state (get_default url []) s) as [raw Hd].
  rewrite Hd. destruct (truthy raw); cbn [negb]; eexists; eexists;
    (split; [reflexivity|]); (split; [reflexivity|]);
    unfold events_of, count_events; cbn [trace filter is_http_get length];
    lia.
Qed.

Lemma draw_row_layout (ev : game_event) (t1 t2 : competitor) (shown : Z)
    (s : State) :
  exists cmds s',
    draw_row w ev t1 t2 shown s = (Return cmds, s')
    /\ row_boxes cmds = [(190 + shown * 150, 190 + shown * 150 + 138)]
    /\ (events_of is_http_get s' <= events_of is_http_get s + 2)%nat.
Proof.
  unfold draw_row, bind.
  match goal with |- context [paste_logo w ?u ?x ?y ?z s] =>
    destruct (paste_logo_shape u x y z s) as [a [s1 [Ha [Hba Hca]]]]
  end.
  rewrite Ha.
  match goal with |- context [paste_logo w ?u ?x ?y ?z s1] =>
    destruct (paste_logo_shape u x y z s1) as [h [s2 [Hh [Hbh Hch]]]]
  end.
  rewrite Hh. eexists. exists s2. split; [reflexivity|].
  split; [|lia].
  cbn [app row_boxes]. rewrite Z.eqb_refl.
  rewrite !row_boxes_app, Hba, Hbh. cbn [app row_boxes].
  unfold ROW_RADIUS. cbn [Z.eqb Pos.eqb].
  unfold title_h, row_h. f_equal. f_equal; lia.
Qed.

Lemma draw_rows_layout (evs : list game_event) :
  forall (shown : Z) (s : State),
  exists cmds s',
    draw_rows w evs shown s = (Return cmds, s')
    /\ row_boxes cmds = row_slots shown (length (filter well_formed evs))
    /\ (events_of is_http_get s'
        <= events_of is_http_get s
           + 2 * length (filter well_formed evs))%nat.
Proof.
  induction evs as [|ev rest IH]; intros shown s; cbn [draw_rows filter].
  - exists [], s. repeat split. cbn [length]. lia.
  - unfold well_formed. destruct (event_teams ev) as [[t1 t2]|].
    + unfold bind.
      destruct (draw_row_layout ev t1 t2 shown s)
        as [r [s1 [Hr [Hbr Hcr]]]].
      rewrite Hr.
      destruct (IH (shown + 1) s1) as [rs [s2 [Hrs [Hbrs Hcrs]]]].
      rewrite Hrs. exists (r ++ rs), s2. split; [reflexivity|].
      split.
      * rewrite row_boxes_app, Hbr, Hbrs. reflexivity.
      * unfold well_formed in Hcrs. cbn [length]. lia.
    + apply IH.
Qed.

Lemma draw_schedule_layout (events : list game_event) (s : State) :
  exists c s',
    draw_schedule w events s = (Return c, s')
    /\ row_boxes (canvas_cmds c)
       = row_slots 0 (length (filter well_formed (firstn max_rows events)))
    /\ (events_of is_http_get s'
        <= events_of is_http_get s
           + 2 * length (filter well_formed (firstn max_rows events)))%nat.
Proof.
  unfold draw_schedule, bind, calls.
  destruct (draw_rows_layout (firstn max_rows events) 0 s)
    as [rows [s1 [Hr [Hb Hc]]]].
  rewrite Hr. eexists. exists s1. split; [reflexivity|].
  split; [|exact Hc].
  unfold schedule_canvas. cbn [canvas_cmds].
  rewrite !row_boxes_app, Hb. cbn [row_boxes app].
  now rewrite app_nil_r.
Qed.

Lemma window_rows_at_most_six (events : list game_event) :
  (length (filter well_formed (firstn max_rows events)) <= 6)%nat.
Proof.
  etransitivity; [apply filter_length_le|].
  rewrite length_firstn. unfold max_rows. lia.
Qed.

End Layout.

(** X19. The rows of the schedule image lie one below the other, 150
    pixels apart and 138 high, the first 10 pixels under the header:
    every row is below the header and inside the canvas, and no row
    touches the next. *)
Theorem rows_fit_the_canvas (w : World) (events : list game_event)
    (s : State) :
  exists c s',
    draw_schedule w events s = (Return c, s')
    /\ row_boxes (canvas_cmds c)
       = row_slots 0 (length (filter well_formed (firstn max_rows events)))
    /\ forall top bottom,
         In (top, bottom) (row_boxes (canvas_cmds c)) ->
         title_h < top /\ bottom = top + 138 /\ bottom < canvas_h c.
Proof.
  destruct (draw_schedule_layout w events s) as [c [s1 [Hd [Hb _]]]].
  exists c, s1. split; [exact Hd|]. split; [exact Hb|].
  intros top bottom Hin. rewrite Hb in Hin.
  apply row_slots_In in Hin. destruct Hin as [k [Hk [Ht Hbt]]].
  pose proof (window_rows_at_most_six events) as H6.
  assert (Hh : canvas_h c = 1080).
  { unfold draw_schedule, bind, calls in Hd.
    destruct (draw_rows w (firstn max_rows events) 0 s) as [[rows|] s2];
      inversion Hd; reflexivity. }
  rewrite Hh. unfold title_h. lia.
Qed.

(** X20. Drawing the schedule requests at most two logos per rendered row,
    twelve at most, whatever the number of events. *)
Theorem schedule_requests_at_most_twelve_logos (w : World)
    (events : list game_event) (s : State) :
  (events_of is_http_get (snd (draw_schedule w events s))
   <= events_of is_http_get s
      + 2 * length (filter well_formed (firstn max_rows events)))%nat
  /\ (events_of is_http_get (snd (draw_schedule w events s))
      <= events_of is_http_get s + 12)%nat.
Proof.
  destruct (draw_schedule_layout w events s) as [c [s1 [Hd [_ Hc]]]].
  rewrite Hd. cbn [snd].
  pose proof (window_rows_at_most_six events) as H6. lia.
Qed.

(** ** The text schedule *)

Lemma startswith_app (p q : pystr) : startswith p (p ++ q) = true.
Proof.
  induction p as [|a p IH]; [reflexivity|]. cbn [app startswith].
  now rewrite N.eqb_refl, IH.
Qed.

Lemma schedule_lines_length (w : World) (evs : list game_event) :
  length (schedule_lines w evs) = length (filter well_formed evs).
Proof.
  induction evs as [|ev rest IH]; [reflexivity|].
  cbn [schedule_lines filter]. unfold well_formed, event_teams.
  destruct (competitions ev) as [|comp comps]; [exact IH|].
  destruct (competitors comp) as [|t1 [|t2 [|t3 ts]]]; try exact IH.
  cbn [length]. now rewrite IH.
Qed.

Lemma text_schedule_shape (w : World) (s : State) :
  exists msg,
    fetch_todays_games_message w s
    = (Return msg,
       {| ledger := ledger s;
          trace := EvHttpGet ESPN_SCOREBOARD_URL :: trace s |}).
Proof.
  unfold fetch_todays_games_message, fetch_scoreboard, try_except, bind,
    calls, emit, returned.
  cbn [fst snd].
  destruct (scoreboard_events w (length (trace s))) as [[|ev evs]|];
    eexists; reflexivity.
Qed.

(** X21. The text schedule never raises, makes one request and always
    begins with the configured header.  When the scoreboard holds events
    it lists every well-formed one, one line each after the header and
    an empty line: the six-row limit of the image does not apply. *)
Theorem text_schedule_lists_every_game (w : World) (s : State) :
  exists msg,
    fetch_todays_games_message w s
    = (Return msg,
       {| ledger := ledger s;
          trace := EvHttpGet ESPN_SCOREBOARD_URL :: trace s |})
    /\ startswith (SCHEDULE_HEADER w) msg = true
    /\ forall ev evs,
         scoreboard_events w (length (trace s)) = Some (ev :: evs) ->
         msg = join_lines (SCHEDULE_HEADER w :: []
                           :: schedule_lines w (ev :: evs))
         /\ length (schedule_lines w (ev :: evs))
            = length (filter well_formed (ev :: evs)).
Proof.
  unfold fetch_todays_games_message, fetch_scoreboard, try_except, bind,
    calls, emit, returned.
  cbn [fst snd].
  destruct (scoreboard_events w (length (trace s))) as [[|ev evs]|].
  - eexists. split; [reflexivity|]. split; [apply startswith_app|].
    discriminate.
  - eexists. split; [reflexivity|]. split.
    + cbn [join_lines]. apply startswith_app.
    + intros ev' evs' Heq. inversion Heq; subst.
      split; [reflexivity|apply schedule_lines_length].
  - eexists. split; [reflexivity|]. split; [apply startswith_app|].
    discriminate.
Qed.

(** ** Home and away *)

Lemma home_is_not_away :
  str_eqb (lit "home") (lit "home") = true
  /\ str_eqb (lit "away") (lit "away") = true
  /\ str_eqb (lit "home") (lit "away") = false
  /\ str_eqb (lit "away") (lit "home") = false.
Proof. repeat split. Qed.

Lemma pick_side_flagged (t1 t2 : competitor) :
  homeAway t1 = Some (lit "home") ->
  homeAway t2 = Some (lit "away") ->
  pick_side (lit "home") [t1; t2] t1 = t1
  /\ pick_side (lit "away") [t1; t2] t2 = t2
  /\ pick_side (lit "home") [t2; t1] t2 = t1
  /\ pick_side (lit "away") [t2; t1] t1 = t2.
Proof.
  intros H1 H2.
  destruct home_is_not_away as [Hhh [Haa [Hha Hah]]].
  unfold pick_side, is_side. cbn [find]. rewrite H1, H2.
  rewrite Hhh, Haa, Hha, Hah. repeat split.
Qed.

(** X22. When one competitor is flagged home and the other away, the order
    in which the scoreboard lists them changes neither the row of the
    image nor the line of the text: the away team is named first, the
    home team after the at sign. *)
Theorem listing_order_of_competitors_is_irrelevant (w : World)
    (ev : game_event) (comp : competition) (t1 t2 : competitor)
    (shown : Z) (s : State) :
  homeAway t1 = Some (lit "home") ->
  homeAway t2 = Some (lit "away") ->
  draw_row w ev t1 t2 shown s = draw_row w ev t2 t1 shown s
  /\ schedule_line w ev comp t1 t2 = schedule_line w ev comp t2 t1
  /\ schedule_line w ev comp t1 t2
     = [8226%N] ++ lit " " ++ fstr (text_name t2) ++ lit " @ "
       ++ fstr (text_name t1) ++ lit " " ++ [8212%N] ++ lit " "
       ++ text_hour w ev
       ++ (if truthy (status_label (status_state comp))
           then lit " (" ++ status_label (status_state comp) ++ lit ")"
           else []).
Proof.
  intros H1 H2.
  destruct (pick_side_flagged t1 t2 H1 H2) as [Ha [Hb [Hc Hd]]].
  unfold draw_row, schedule_line. rewrite Ha, Hb, Hc, Hd.
  repeat split.
Qed.

Lemma listing_order_of_competitors_is_irrelevant_witness :
  schedule_line offline_world g1
    {| competitors := [away_celtics; home_lakers];
       status_state := Some (lit "IN") |} home_lakers away_celtics
  = [8226%N] ++ lit " Boston Celtics @ Lakers " ++ [8212%N]
    ++ lit " Horario a confirmar (EN VIVO)".
Proof.
  refine (proj2 (proj2 (listing_order_of_competitors_is_irrelevant
            offline_world g1
            {| competitors := [away_celtics; home_lakers];
               status_state := Some (lit "IN") |}
            home_lakers away_celtics 0 initial_state _ _)));
    reflexivity.
Defined.

(** ** What a row holds *)

Lemma format_entry_link (w : World) (fn : pystr) (e : entry) (s : State)
    (text link : pystr) :
  fst (format_entry w fn e s) = Return (text, link) ->
  link = get_default (e_link e) [].
Proof.
  unfold format_entry, bind.
  destruct (translate_to_spanish w (get_default (e_title e) NO_TITLE) 200 s)
    as [[title_es|] s1]; [|discriminate].
  destruct (translate_to_spanish w (extract_excerpt w e 350) 1000 s1)
    as [[excerpt_es|] s2]; [|discriminate].
  unfold returned.
  match goal with |- context [POST_TEMPLATE_format w ?a ?b ?c ?d ?x] =>
    destruct (POST_TEMPLATE_format w a b c d x)
  end; cbn [fst ret]; intros H; inversion H. reflexivity.
Qed.

Lemma process_entry_new_row (w : World) (fu fn : pystr) (e : entry)
    (s : State) :
  truthy_opt (entry_guid e) = true ->
  was_posted (get_default (entry_guid e) []) (ledger s) = false ->
  fst (process_entry w fu fn e s) = Return tt ->
  exists now,
    ledger (snd (process_entry w fu fn e s))
    = ledger s
      ++ [{| row_id := S (length (ledger s));
             row_feed := fu;
             row_guid := get_default (entry_guid e) [];
             row_title := get_default (e_title e) [];
             row_url := get_default (e_link e) [];
             row_published_at := get_default (e_published e) [];
             row_posted_at := now |}].
Proof.
  intros Hg Hw Hr.
  destruct (process_entry_new w fu fn e s Hg Hw)
    as [[_ [Hraise _]]|[text [link [now [Hf [_ [Hl _]]]]]]]; [congruence|].
  exists now. rewrite Hl. unfold mark_posted. rewrite Hw.
  now rewrite (format_entry_link w fn e s text link Hf).
Qed.

(** X8. The row written for a new entry is appended to the table and
    holds the feed URL, the guid and the title, link and published string
    as the feed gave them: the title is stored untranslated. *)
Theorem recorded_row_holds_the_entry (w : World) (fu fn : pystr) (e : entry)
    (s : State) :
  truthy_opt (entry_guid e) = true ->
  was_posted (get_default (entry_guid e) []) (ledger s) = false ->
  fst (process_entry w fu fn e s) = Return tt ->
  exists now,
    ledger (snd (process_entry w fu fn e s))
    = ledger s
      ++ [{| row_id := S (length (ledger s));
             row_feed := fu;
             row_guid := get_default (entry_guid e) [];
             row_title := get_default (e_title e) [];
             row_url := get_default (e_link e) [];
             row_published_at := get_default (e_published e) [];
             row_posted_at := now |}].
Proof. apply process_entry_new_row. Qed.

Lemma recorded_row_holds_the_entry_witness :
  exists now,
    ledger (snd (process_entry news_world (lit "https://feeds.example/nba")
                   (lit "ESPN") entry_news initial_state))
    = ledger initial_state
      ++ [{| row_id := S (length (ledger initial_state));
             row_feed := lit "https://feeds.example/nba";
             row_guid := get_default (entry_guid entry_news) [];
             row_title := get_default (e_title entry_news) [];
             row_url := get_default (e_link entry_news) [];
             row_published_at := get_default (e_published entry_news) [];
             row_posted_at := now |}].
Proof. apply recorded_row_holds_the_entry; reflexivity. Defined.

Lemma was_posted_app_row (g : pystr) (db : table) (r : post_row) :
  was_posted g (db ++ [r]) = was_posted g db || str_eqb (row_guid r) g.
Proof.
  unfold was_posted. rewrite existsb_app. cbn [existsb].
  now rewrite orb_false_r.
Qed.

(** X9. When the template resolves, entries with distinct identifiers that
    are not in the ledger yet are recorded in the order the feed delivered
    them: the guid column grows by their guids, first to last. *)
Theorem new_entries_are_recorded_in_feed_order (w : World) (fu fn : pystr)
    (es : list entry) (s : State) :
  (forall a b c d x, POST_TEMPLATE_format w a b c d x <> None) ->
  (forall e, In e es -> truthy_opt (entry_guid e) = true) ->
  NoDup (map (fun e => get_default (entry_guid e) []) es) ->
  (forall e, In e es ->
     was_posted (get_default (entry_guid e) []) (ledger s) = false) ->
  map row_guid (ledger (snd (process_entries w fu fn es s)))
  = map row_guid (ledger s)
    ++ map (fun e => get_default (entry_guid e) []) es.
Proof.
  intros Htpl. revert s.
  induction es as [|e es IH]; intros s Hg Hnd Hnew; cbn [process_entries].
  - cbn [ret snd map]. now rewrite app_nil_r.
  - unfold bind. inversion Hnd as [|g gs Hnotin Hnd']. subst.
    destruct (process_entry_records w fu fn e s Htpl) as [Hr _].
    destruct (process_entry_new_row w fu fn e s
                (Hg e (or_introl eq_refl)) (Hnew e (or_introl eq_refl)) Hr)
      as [now Hl].
    destruct (process_entry w fu fn e s) as [[[]|] s1]; cbn [fst snd] in *;
      [|discriminate].
    rewrite IH.
    + rewrite Hl, map_app. cbn [map row_guid]. now rewrite <- app_assoc.
    + intros e' Hin. apply Hg. now right.
    + exact Hnd'.
    + intros e' Hin. rewrite Hl, was_posted_app_row.
      rewrite (Hnew e' (or_intror Hin)). cbn [row_guid orb].
      destruct (str_eqb (get_default (entry_guid e) [])
                  (get_default (entry_guid e') [])) eqn:Heq;
        [|reflexivity].
      apply str_eqb_eq in Heq. exfalso. apply Hnotin. rewrite Heq.
      now apply (in_map (fun e0 => get_default (entry_guid e0) [])).
Qed.

Lemma new_entries_are_recorded_in_feed_order_witness :
  map row_guid
    (ledger (snd (process_entries offline_world
                    (lit "https://feeds.example/nba") (lit "ESPN")
                    [entry_news; entry_enclosure_without_href]
                    initial_state)))
  = [lit "tag:example.com,2024:1"; lit "tag:example.com,2024:2"].
Proof.
  apply (new_entries_are_recorded_in_feed_order offline_world
           (lit "https://feeds.example/nba") (lit "ESPN")
           [entry_news; entry_enclosure_without_href] initial_state).
  - intros a b c d x. discriminate.
  - intros e [<-|[<-|[]]]; reflexivity.
  - constructor.
    + intros [H|[]]. vm_compute in H. discriminate H.
    + constructor; [intros []|constructor].
  - intros e [<-|[<-|[]]]; reflexivity.
Defined.

(** ** The text of the call to action *)

(** X23. The text of the call to action never raises and always begins
    with the normalized message.  With the schedule switched off it is
    that message alone and no request is made for it; otherwise two line
    breaks and the text schedule follow. *)
Theorem cta_text_begins_with_the_message (w : World) (s : State) :
  exists msg s1,
    cta_text w s = (Return msg, s1)
    /\ startswith (normalize_message (CTA_MESSAGE w)) msg = true
    /\ (CTA_INCLUDE_SCHEDULE w = false ->
        msg = normalize_message (CTA_MESSAGE w) /\ s1 = s)
    /\ (CTA_INCLUDE_SCHEDULE w = true ->
        exists sched,
          fetch_todays_games_message w s = (Return sched, s1)
          /\ msg = normalize_message (CTA_MESSAGE w) ++ [10; 10]%N ++ sched).
Proof.
  unfold cta_text. destruct (CTA_INCLUDE_SCHEDULE w).
  - unfold bind.
    destruct (text_schedule_shape w s) as [sched Hs]. rewrite Hs.
    eexists. eexists. split; [reflexivity|].
    split; [apply startswith_app|]. split; [discriminate|].
    intros _. exists sched. now split.
  - exists (normalize_message (CTA_MESSAGE w)), s. split; [reflexivity|].
    split.
    + rewrite <- (app_nil_r (normalize_message (CTA_MESSAGE w))) at 2.
      apply startswith_app.
    + split; [now split|discriminate].
Qed.
